(** * Validation proxy of the application-connectivity-validator

    A shallow embedding of [validationproxy/proxy.go]: subject extraction
    from the forwarded-certificate header, identity resolution through the
    cache and the application getter, subject authorization, path routing
    and the request transforms of the three reverse proxies.

    Go strings are byte strings: they are modelled by [string], whose
    characters are the 256 values of [ascii].  A run-time panic is an
    explicit outcome.  Logging is not modelled. *)

From Stdlib Require Import Ascii String ZArith.
From stdpp Require Import gmap strings list fin_maps.

Local Open Scope string_scope.

(** ** Outcomes of Go code that may panic *)

Inductive RuntimeError : Type :=
  | IndexOutOfRange (index len : nat)
  | NilDereference.

Inductive Outcome (A : Type) : Type :=
  | Ok (a : A)
  | Panic (e : RuntimeError).

Arguments Ok {A} a.
Arguments Panic {A} e.

#[global] Instance Outcome_ret : MRet Outcome := fun A a => Ok a.

#[global] Instance Outcome_bind : MBind Outcome := fun A B k o =>
  match o with
  | Ok a => k a
  | Panic e => Panic e
  end.

(** [array[index]] on a Go slice. *)
Definition index_at {A : Type} (array : list A) (index : nat) : Outcome A :=
  match array !! index with
  | Some x => Ok x
  | None => Panic (IndexOutOfRange index (length array))
  end.

(** ** The Go library functions the file calls *)

Module strings.

(** [strings.HasPrefix(s, prefix)]. *)
Definition HasPrefix (s prefix : string) : bool := String.prefix prefix s.

(** [strings.Split(s, sep)] for a separator of one byte: the substrings
    between the occurrences of [sep], one more than there are
    occurrences (so the empty string gives one empty substring). *)
Fixpoint Split (s : string) (sep : ascii) : list string :=
  match s with
  | EmptyString => [EmptyString]
  | String c t =>
      if Ascii.eqb c sep then EmptyString :: Split t sep
      else match Split t sep with
           | h :: r => String c h :: r
           | [] => [String c EmptyString]
           end
  end.

(** [strings.Contains(s, substr)]; it only serves to state properties of
    messages. *)
Fixpoint Contains (s substr : string) : bool :=
  String.prefix substr s ||
  match s with
  | EmptyString => false
  | String _ t => Contains t substr
  end.

End strings.

Module fmt.

(** [fmt.Sprintf(format, args...)] for the [%s] verb on string operands,
    the only verb of this file.  A verb without operand prints as Go
    prints it. *)
Fixpoint Sprintf (format : string) (args : list string) : string :=
  match format with
  | EmptyString => EmptyString
  | String c rest =>
      match rest with
      | String d rest' =>
          if Ascii.eqb c "%" && Ascii.eqb d "s" then
            match args with
            | a :: args' => a +:+ Sprintf rest' args'
            | [] => "%!s(MISSING)" +:+ Sprintf rest' []
            end
          else String c (Sprintf rest args)
      | EmptyString => String c EmptyString
      end
  end.

End fmt.

(** [textproto.CanonicalMIMEHeaderKey]: a key with a byte that is not a
    token byte is returned as it is; otherwise the first letter and every
    letter after a hyphen are upper case and the others lower case. *)
Module textproto.

Definition isLower (c : ascii) : bool :=
  let n := nat_of_ascii c in (97 <=? n)%nat && (n <=? 122)%nat.
Definition isUpper (c : ascii) : bool :=
  let n := nat_of_ascii c in (65 <=? n)%nat && (n <=? 90)%nat.
Definition isDigit (c : ascii) : bool :=
  let n := nat_of_ascii c in (48 <=? n)%nat && (n <=? 57)%nat.

Definition toUpper (c : ascii) : ascii :=
  if isLower c then ascii_of_nat (nat_of_ascii c - 32) else c.
Definition toLower (c : ascii) : ascii :=
  if isUpper c then ascii_of_nat (nat_of_ascii c + 32) else c.

Definition validHeaderFieldByte (c : ascii) : bool :=
  isLower c || isUpper c || isDigit c ||
  bool_decide (c ∈ list_ascii_of_string "!#$%&'*+-.^_`|~").

Fixpoint allValid (s : string) : bool :=
  match s with
  | EmptyString => true
  | String c t => validHeaderFieldByte c && allValid t
  end.

Fixpoint canonicalize (upper : bool) (s : string) : string :=
  match s with
  | EmptyString => EmptyString
  | String c t =>
      String (if upper then toUpper c else toLower c)
             (canonicalize (Ascii.eqb c "-") t)
  end.

Definition CanonicalMIMEHeaderKey (s : string) : string :=
  if allValid s then canonicalize true s else s.

End textproto.

(** ** [net/http] requests *)

Module http.

(** [http.Header]: a map from canonical keys to their values. *)
Abbreviation Header := (gmap string (list string)).

Definition Header_Get (h : Header) (key : string) : string :=
  match h !! textproto.CanonicalMIMEHeaderKey key with
  | Some (v :: _) => v
  | _ => ""
  end.

Definition Header_Del (h : Header) (key : string) : Header :=
  delete (textproto.CanonicalMIMEHeaderKey key) h.

Record URL : Type := mkURL {
  Scheme : string;
  URL_Host : string;
  Path : string;
  RawQuery : string
}.

(** The fields of [http.Request] the proxy reads or writes.  [Vars] holds
    the route variables that [mux.Vars] reads from the request. *)
Record Request : Type := mkRequest {
  Method : string;
  Url : URL;
  Header_ : Header;
  Host : string;
  Vars : gmap string string
}.

End http.

Import http.

(** ** The regular expression of [extractSubjects]

    The pattern of [regexp.MustCompile] there is the literal [Subject=]
    with an opening quote, a lazy group [(.*?)] of bytes other than the
    line feed, and a closing quote.  The lazy group ends at the first
    quote; a line feed before it makes the match fail at that start. *)
Module regexp.

Definition quote : ascii := "034"%char.
Definition lineFeed : ascii := "010"%char.

Definition subjectOpen : string := "Subject=" +:+ String quote EmptyString.

(** The group matched by [(.*?)] and the closing quote at the head of
    [s]. *)
Fixpoint lazyGroup (s : string) : option string :=
  match s with
  | EmptyString => None
  | String c t =>
      if Ascii.eqb c quote then Some EmptyString
      else if Ascii.eqb c lineFeed then None
      else match lazyGroup t with
           | Some g => Some (String c g)
           | None => None
           end
  end.

(** The match that starts at the head of [s]: the whole match and the
    group. *)
Definition matchAt (s : string) : option (list string) :=
  if String.prefix subjectOpen s then
    match lazyGroup (String.substring 9 (String.length s - 9) s) with
    | Some g => Some [subjectOpen +:+ g +:+ String quote EmptyString; g]
    | None => None
    end
  else None.

(** [FindAllStringSubmatch(s, -1)]: the successive leftmost matches, none
    overlapping another.  [skip] counts the bytes of the last match that
    are still to be passed over. *)
Fixpoint findAllFrom (skip : nat) (s : string) : list (list string) :=
  match s with
  | EmptyString => []
  | String _ t =>
      match skip with
      | S k => findAllFrom k t
      | O =>
          match matchAt s with
          | Some m => m :: findAllFrom (String.length (default "" (head m)) - 1) t
          | None => findAllFrom 0 t
          end
      end
  end.

Definition FindAllStringSubmatch (s : string) : list (list string) :=
  findAllFrom 0 s.

End regexp.

(** ** [crypto/x509/pkix] *)

Module pkix.

Record Name : Type := mkName {
  Country : list string;
  Organization : list string;
  OrganizationalUnit : list string;
  Locality : list string;
  Province : list string;
  CommonName : string
}.

End pkix.

(** ** Subject extraction *)

Definition CertificateInfoHeader : string := "X-Forwarded-Client-Cert".
Definition BEBEnabledPublishEndpoint : string := "/publish".

Definition get (array : list string) (index : nat) : string :=
  if bool_decide (index < length array)%nat then default "" (array !! index)
  else "".

Fixpoint extractSubjects_loop (subjectMatches : list (list string))
    (subjects : list string) : list string :=
  match subjectMatches with
  | [] => subjects
  | subjectMatch :: rest =>
      let subject := get subjectMatch 1 in
      if negb (String.eqb subject "")
      then extractSubjects_loop rest (subjects ++ [subject])
      else extractSubjects_loop rest subjects
  end.

Definition extractSubjects (certInfoData : string) : list string :=
  let subjectMatches := regexp.FindAllStringSubmatch certInfoData in
  extractSubjects_loop subjectMatches [].

(** The loop of [extractSubject]: [result[parts[0]] = parts[1]] for every
    segment. *)
Fixpoint extractSubject_loop (segments : list string)
    (result : gmap string string) : Outcome (gmap string string) :=
  match segments with
  | [] => Ok result
  | segment :: rest =>
      let parts := strings.Split segment "=" in
      key ← index_at parts 0;
      value ← index_at parts 1;
      extractSubject_loop rest (<[key := value]> result)
  end.

Definition extractSubject (subject : string) : Outcome (gmap string string) :=
  let segments := strings.Split subject "," in
  extractSubject_loop segments ∅.

(** [m[k]] on a Go map of strings: the zero value when the key is absent. *)
Definition map_index (m : gmap string string) (k : string) : string :=
  default "" (m !! k).

Definition parseSubject (rawSubject : string) : Outcome pkix.Name :=
  subjectInfo ← extractSubject rawSubject;
  Ok {| pkix.CommonName := map_index subjectInfo "CN";
        pkix.Country := [map_index subjectInfo "C"];
        pkix.Organization := [map_index subjectInfo "O"];
        pkix.OrganizationalUnit := [map_index subjectInfo "OU"];
        pkix.Locality := [map_index subjectInfo "L"];
        pkix.Province := [map_index subjectInfo "ST"] |}.

(** ** Subject authorization *)

Fixpoint areStringsFilled (strs : list string) : bool :=
  match strs with
  | [] => true
  | str :: rest => if String.eqb str "" then false else areStringsFilled rest
  end.

Section subjectValidator.

Variable applicationClientIDs : list string.
Variables appName group tenant : string.

Definition validateCommonNameWithAppName (subject : pkix.Name) : bool :=
  String.eqb appName (pkix.CommonName subject).

Fixpoint commonNameIn (ids : list string) (subject : pkix.Name) : bool :=
  match ids with
  | [] => false
  | id :: rest =>
      if String.eqb (pkix.CommonName subject) id then true
      else commonNameIn rest subject
  end.

Definition validateCommonNameWithClientIDs (subject : pkix.Name) : bool :=
  commonNameIn applicationClientIDs subject.

Definition validateSubjectField (subjectField : list string)
    (expectedValue : string) : bool :=
  bool_decide (length subjectField = 1%nat) &&
  String.eqb (default "" (subjectField !! 0%nat)) expectedValue.

Definition newSubjectValidator : pkix.Name -> bool :=
  if bool_decide (length applicationClientIDs = 0%nat)
     && negb (areStringsFilled [group; tenant])
  then validateCommonNameWithAppName
  else if bool_decide (length applicationClientIDs = 0%nat)
          && areStringsFilled [group; tenant]
  then fun subject =>
         validateCommonNameWithAppName subject
         && validateSubjectField (pkix.Organization subject) tenant
         && validateSubjectField (pkix.OrganizationalUnit subject) group
  else if negb (bool_decide (length applicationClientIDs = 0%nat))
          && negb (areStringsFilled [group; tenant])
  then validateCommonNameWithClientIDs
  else if negb (bool_decide (length applicationClientIDs = 0%nat))
          && areStringsFilled [group; tenant]
  then fun subject =>
         validateCommonNameWithClientIDs subject
         && validateSubjectField (pkix.Organization subject) tenant
         && validateSubjectField (pkix.OrganizationalUnit subject) group
  else fun _ => false.

End subjectValidator.

Fixpoint hasValidSubject_loop (subjectValidator : pkix.Name -> bool)
    (subjects : list string) : Outcome bool :=
  match subjects with
  | [] => Ok false
  | s :: rest =>
      parsedSubject ← parseSubject s;
      if subjectValidator parsedSubject then Ok true
      else hasValidSubject_loop subjectValidator rest
  end.

Definition hasValidSubject (subjects applicationClientIDs : list string)
    (appName group tenant : string) : Outcome bool :=
  let subjectValidator :=
    newSubjectValidator applicationClientIDs appName group tenant in
  hasValidSubject_loop subjectValidator subjects.

(** ** Errors and application records *)

Module apperrors.

(** Modelled from the spec: the package [internal/apperrors] is not among
    the sources.  An application error has one of the four kinds of the
    error-handling design and a message; each constructor formats its
    message as [fmt.Sprintf] does. *)
Inductive Code : Type := CodeInternal | CodeNotFound | CodeBadRequest | CodeForbidden.

Record AppError : Type := mkAppError { code : Code; message : string }.

Definition Internal (format : string) (a : list string) : AppError :=
  mkAppError CodeInternal (fmt.Sprintf format a).
Definition NotFound (format : string) (a : list string) : AppError :=
  mkAppError CodeNotFound (fmt.Sprintf format a).
Definition BadRequest (format : string) (a : list string) : AppError :=
  mkAppError CodeBadRequest (fmt.Sprintf format a).
Definition Forbidden (format : string) (a : list string) : AppError :=
  mkAppError CodeForbidden (fmt.Sprintf format a).

(** The [Error] method: the message. *)
Definition Error (e : AppError) : string := message e.

End apperrors.

Import apperrors.

Module v1alpha1.

(** Modelled from the spec: the application resource type is not among
    the sources.  Only the path to the client identifiers is kept; the
    metadata is a pointer that may be nil. *)
Record Authentication : Type := mkAuthentication { ClientIds : list string }.
Record CompassMetadata : Type := mkCompassMetadata { Authentication_ : Authentication }.
Record ApplicationSpec : Type := mkApplicationSpec { CompassMetadata_ : option CompassMetadata }.
Record Application : Type := mkApplication { Spec : ApplicationSpec }.

End v1alpha1.

(** [cache.DefaultExpiration] of go-cache. *)
Definition DefaultExpiration : Z := 0.

(** The [Cache] interface over a cache state [C].  [Get] reads the state
    and answers the value when the key is found; [Set] gives the next
    state.  The values are the [[]string] this file stores. *)
Class Cache (C : Type) : Type := {
  Cache_Get : C -> string -> option (list string);
  Cache_Set : C -> string -> list string -> Z -> C
}.

(** ** Reverse proxies *)

Definition requestOption : Type := Request -> Request.

Module httputil.

Record ReverseProxy : Type := mkReverseProxy {
  Director : Request -> Request
}.

End httputil.

Import httputil.

Definition set_Path (path : string) (u : URL) : URL :=
  {| Scheme := Scheme u; URL_Host := URL_Host u; Path := path; RawQuery := RawQuery u |}.
Definition set_Scheme (scheme : string) (u : URL) : URL :=
  {| Scheme := scheme; URL_Host := URL_Host u; Path := Path u; RawQuery := RawQuery u |}.
Definition set_URL_Host (host : string) (u : URL) : URL :=
  {| Scheme := Scheme u; URL_Host := host; Path := Path u; RawQuery := RawQuery u |}.
Definition set_Url (f : URL -> URL) (req : Request) : Request :=
  {| Method := Method req; Url := f (Url req); Header_ := Header_ req;
     Host := Host req; Vars := Vars req |}.
Definition set_Host (host : string) (req : Request) : Request :=
  {| Method := Method req; Url := Url req; Header_ := Header_ req;
     Host := host; Vars := Vars req |}.
Definition set_Header (f : Header -> Header) (req : Request) : Request :=
  {| Method := Method req; Url := Url req; Header_ := f (Header_ req);
     Host := Host req; Vars := Vars req |}.

(** [withRewriteBaseURL] rewrites the request's path. *)
Definition withRewriteBaseURL (path : string) : requestOption :=
  fun req => set_Url (set_Path path) req.

(** [withEmptyRequestHost] clears the request's [Host] field. *)
Definition withEmptyRequestHost : requestOption :=
  fun req => set_Host "" req.

(** [withHTTPScheme] sets the URL scheme to HTTP. *)
Definition withHTTPScheme : requestOption :=
  fun req => set_Url (set_Scheme "http") req.

(** [withEmptyXFwdClientCert] deletes the X-Forwarded-Client-Cert header. *)
Definition withEmptyXFwdClientCert : requestOption :=
  fun req => set_Header (fun h => Header_Del h "X-Forwarded-Client-Cert") req.

Definition createReverseProxy (destinationHost : string)
    (reqOpts : list requestOption) : ReverseProxy :=
  {| Director := fun request =>
       foldl (fun req opt => opt req)
             (set_Url (set_URL_Host destinationHost) request) reqOpts |}.

(** ** The handler *)

Record proxyHandler : Type := mkProxyHandler {
  group : string;
  tenant : string;
  eventServicePathPrefixV1 : string;
  eventServicePathPrefixV2 : string;
  eventServiceHost : string;
  eventMeshPathPrefix : string;
  eventMeshHost : string;
  isBEBEnabled : bool;
  appRegistryPathPrefix : string;
  appRegistryHost : string;

  eventsProxy : ReverseProxy;
  eventMeshProxy : ReverseProxy;
  appRegistryProxy : ReverseProxy;

  (** [ApplicationGetter.Get]: the application, or the error of the
      client. *)
  applicationGetter : string -> v1alpha1.Application + string
}.

(** The cache of the handler is a shared mutable object: its state lives in
    the world the handler runs in, not in the record. *)
Definition NewProxyHandler
    (group tenant : string)
    (eventServicePathPrefixV1 eventServicePathPrefixV2 eventServiceHost : string)
    (eventMeshPathPrefix eventMeshHost eventMeshDestinationPath : string)
    (appRegistryPathPrefix appRegistryHost : string)
    (applicationGetter : string -> v1alpha1.Application + string)
    : proxyHandler :=
  let isBEBEnabled := false in
  let isBEBEnabled :=
    if String.eqb eventMeshDestinationPath BEBEnabledPublishEndpoint
    then true else isBEBEnabled in
  {| group := group;
     tenant := tenant;
     eventServicePathPrefixV1 := eventServicePathPrefixV1;
     eventServicePathPrefixV2 := eventServicePathPrefixV2;
     eventServiceHost := eventServiceHost;
     eventMeshPathPrefix := eventMeshPathPrefix;
     eventMeshHost := eventMeshHost;
     isBEBEnabled := isBEBEnabled;
     appRegistryPathPrefix := appRegistryPathPrefix;
     appRegistryHost := appRegistryHost;
     eventsProxy :=
       createReverseProxy eventServiceHost
         [withEmptyRequestHost; withEmptyXFwdClientCert; withHTTPScheme];
     eventMeshProxy :=
       createReverseProxy eventMeshHost
         [withRewriteBaseURL eventMeshDestinationPath; withEmptyRequestHost;
          withEmptyXFwdClientCert; withHTTPScheme];
     appRegistryProxy :=
       createReverseProxy appRegistryHost
         [withEmptyRequestHost; withHTTPScheme];
     applicationGetter := applicationGetter |}.

Definition mapRequestToProxy (ph : proxyHandler) (path : string)
    : option ReverseProxy * option AppError :=
  if strings.HasPrefix path (eventServicePathPrefixV1 ph) then
    (Some (eventsProxy ph), None)
  else if strings.HasPrefix path (eventServicePathPrefixV2 ph) then
    if isBEBEnabled ph then (Some (eventMeshProxy ph), None)
    else (Some (eventsProxy ph), None)
  else if strings.HasPrefix path (eventMeshPathPrefix ph) then
    (Some (eventMeshProxy ph), None)
  else if strings.HasPrefix path (appRegistryPathPrefix ph) then
    (Some (appRegistryProxy ph), None)
  else
    (None, Some (NotFound "Could not determine destination host. Requested resource not found" [])).

(** ** The world of a request: the cache and the calls made

    Every call that leaves the handler is recorded, in order: the calls of
    the cache, of the application getter, the error response written and
    the request handed to a reverse proxy (after its director). *)

Inductive Event : Type :=
  | EvCacheGet (k : string)
  | EvCacheSet (k : string) (x : list string) (d : Z)
  | EvApplicationGet (name : string)
  | EvRespondWithError (e : AppError)
  | EvServeHTTP (outreq : Request).

Record World (C : Type) : Type := mkWorld {
  cache : C;
  calls : list Event
}.

Arguments mkWorld {C} cache calls.
Arguments cache {C} w.
Arguments calls {C} w.

Definition M (C A : Type) : Type := World C -> Outcome A * World C.

#[global] Instance M_ret {C} : MRet (M C) := fun A a w => (Ok a, w).

#[global] Instance M_bind {C} : MBind (M C) := fun A B k m w =>
  match m w with
  | (Ok a, w') => k a w'
  | (Panic e, w') => (Panic e, w')
  end.

Definition liftOutcome {C A} (o : Outcome A) : M C A := fun w => (o, w).

Definition emit {C} (e : Event) : M C unit :=
  fun w => (Ok tt, mkWorld (cache w) (calls w ++ [e])).

Section resolver.

Context {C : Type} `{Cache C}.

Definition cacheGet (k : string) : M C (option (list string)) :=
  fun w => (Ok (Cache_Get (cache w) k), mkWorld (cache w) (calls w ++ [EvCacheGet k])).

Definition cacheSet (k : string) (x : list string) (d : Z) : M C unit :=
  fun w => (Ok tt, mkWorld (Cache_Set (cache w) k x d) (calls w ++ [EvCacheSet k x d])).

Definition applicationGet (ph : proxyHandler) (name : string)
    : M C (v1alpha1.Application + string) :=
  _ ← emit (EvApplicationGet name);
  mret (applicationGetter ph name).

(** [httptools.RespondWithError]. *)
Definition RespondWithError (e : AppError) : M C unit :=
  emit (EvRespondWithError e).

(** [ReverseProxy.ServeHTTP]: the director rewrites the outgoing request,
    which is then sent to the backend. *)
Definition ServeHTTP (p : ReverseProxy) (r : Request) : M C unit :=
  emit (EvServeHTTP (Director p r)).

Definition getClientIDsFromCache (ph : proxyHandler) (applicationName : string)
    : M C (list string * bool) :=
  found ← cacheGet applicationName;
  match found with
  | None => mret ([], false)
  | Some clientIDs => mret (clientIDs, true)
  end.

Definition getClientIDsFromResource (ph : proxyHandler) (applicationName : string)
    : M C (list string * option AppError) :=
  res ← applicationGet ph applicationName;
  match res with
  | inr err =>
      mret ([], Some (Internal "failed to get %s application: %s" [applicationName; err]))
  | inl application =>
      match v1alpha1.CompassMetadata_ (v1alpha1.Spec application) with
      | None => mret ([], None)
      | Some md =>
          mret (v1alpha1.ClientIds (v1alpha1.Authentication_ md), None)
      end
  end.

Definition getCompassMetadataClientIDs (ph : proxyHandler) (applicationName : string)
    : M C (list string * option AppError) :=
  '(applicationClientIDs, found) ← getClientIDsFromCache ph applicationName;
  if negb found then
    '(applicationClientIDs, err) ← getClientIDsFromResource ph applicationName;
    match err with
    | Some e => mret ([], Some e)
    | None =>
        _ ← cacheSet applicationName applicationClientIDs DefaultExpiration;
        mret (applicationClientIDs, None)
    end
  else mret (applicationClientIDs, None).

Definition ProxyAppConnectorRequests (ph : proxyHandler) (r : Request) : M C unit :=
  let certInfoData := Header_Get (Header_ r) CertificateInfoHeader in
  if String.eqb certInfoData "" then
    RespondWithError (Internal "%s header not found" [CertificateInfoHeader])
  else
    let applicationName := map_index (Vars r) "application" in
    if String.eqb applicationName "" then
      RespondWithError (BadRequest "Application name not specified" [])
    else
      '(applicationClientIDs, err) ← getCompassMetadataClientIDs ph applicationName;
      match err with
      | Some e =>
          RespondWithError (Internal "Failed to get Application ClientIds: %s" [Error e])
      | None =>
          let subjects := extractSubjects certInfoData in
          valid ← liftOutcome
                    (hasValidSubject subjects applicationClientIDs applicationName
                       (group ph) (tenant ph));
          if negb valid then
            RespondWithError (Forbidden "No valid subject found" [])
          else
            match mapRequestToProxy ph (Path (Url r)) with
            | (_, Some e) => RespondWithError e
            | (Some reverseProxy, None) => ServeHTTP reverseProxy r
            | (None, None) => liftOutcome (Panic NilDereference)
            end
      end.

End resolver.

(** A cache without expiry, as a map: what go-cache is between two
    expirations. *)
#[global] Instance mapCache : Cache (gmap string (list string * Z)) := {
  Cache_Get c k := fst <$> c !! k;
  Cache_Set c k x d := <[k := (x, d)]> c
}.

(** ** The design's view of authorization and routing

    The design describes a parsed subject with one string per attribute and
    selects one of four predicates by two booleans.  These definitions
    follow its words; the theorems below compare them with the code. *)

Module Design.

Record ParsedSubject : Type := mkParsedSubject {
  CommonName : string;
  Organization : string;
  OrganizationalUnit : string;
  Country : string;
  Locality : string;
  Province : string
}.

(** The parsed subject a [pkix.Name] stands for: the value of each field,
    the empty string for a field without value. *)
Definition ofName (n : pkix.Name) : ParsedSubject :=
  {| CommonName := pkix.CommonName n;
     Organization := default "" (head (pkix.Organization n));
     OrganizationalUnit := default "" (head (pkix.OrganizationalUnit n));
     Country := default "" (head (pkix.Country n));
     Locality := default "" (head (pkix.Locality n));
     Province := default "" (head (pkix.Province n)) |}.

Definition hasClientIDs (identity : list string) : bool :=
  bool_decide (0 < length identity)%nat.

Definition hasScoping (group tenant : string) : bool :=
  bool_decide (group ≠ "" ∧ tenant ≠ "").

(** The table of the four predicates on a single subject. *)
Definition policy (clientIDs scoping : bool) (identity : list string)
    (applicationName group tenant : string) (subject : ParsedSubject) : bool :=
  match clientIDs, scoping with
  | false, false => bool_decide (CommonName subject = applicationName)
  | false, true =>
      bool_decide (CommonName subject = applicationName)
      && bool_decide (Organization subject = tenant)
      && bool_decide (OrganizationalUnit subject = group)
  | true, false => bool_decide (CommonName subject ∈ identity)
  | true, true =>
      bool_decide (CommonName subject ∈ identity)
      && bool_decide (Organization subject = tenant)
      && bool_decide (OrganizationalUnit subject = group)
  end.

(** Authorization: the disjunction of the selected predicate over the
    subjects. *)
Definition Authorize (subjects : list ParsedSubject) (identity : list string)
    (applicationName group tenant : string) : bool :=
  existsb (policy (hasClientIDs identity) (hasScoping group tenant)
                  identity applicationName group tenant) subjects.

(** The ordered rule list of the router: the first rule whose prefix
    starts the path decides. *)
Definition firstMatch {D : Type} (rules : list (string * D)) (path : string)
    : option D :=
  snd <$> List.find (fun rule => String.prefix (fst rule) path) rules.

End Design.

(** A segment of a subject that has the separator of key and value. *)
Definition hasSeparator (segment : string) : Prop :=
  "="%char ∈ list_ascii_of_string segment.

(** The subjects of a header that all parse, parsed in order. *)
Fixpoint parseSubjects (subjects : list string) : Outcome (list pkix.Name) :=
  match subjects with
  | [] => Ok []
  | s :: rest =>
      n ← parseSubject s;
      ns ← parseSubjects rest;
      Ok (n :: ns)
  end.

(** The rules of the router, in their order, for a handler. *)
Definition routingRules (ph : proxyHandler) : list (string * ReverseProxy) :=
  [ (eventServicePathPrefixV1 ph, eventsProxy ph);
    (eventServicePathPrefixV2 ph,
       if isBEBEnabled ph then eventMeshProxy ph else eventsProxy ph);
    (eventMeshPathPrefix ph, eventMeshProxy ph);
    (appRegistryPathPrefix ph, appRegistryProxy ph) ].

(** ** Sample configuration, and two statements of the design *)

(** One occurrence of the pattern in a header value: [Subject=] and the
    subject between quotes. *)
Definition subjectEntry (dn : string) : string :=
  regexp.subjectOpen +:+ dn +:+ String regexp.quote EmptyString.

Definition sampleGetter (name : string) : v1alpha1.Application + string :=
  if String.eqb name "app1" then
    inl (v1alpha1.mkApplication (v1alpha1.mkApplicationSpec None))
  else if String.eqb name "app2" then
    inl (v1alpha1.mkApplication (v1alpha1.mkApplicationSpec
           (Some (v1alpha1.mkCompassMetadata (v1alpha1.mkAuthentication ["id1"; "id2"])))))
  else inr "not found".

Definition sampleHandler : proxyHandler :=
  NewProxyHandler "" "" "/v1/events" "/v2/events" "events.svc:8081"
    "/events" "mesh.svc:80" "/publish"
    "/v1/metadata" "registry.svc:8081" sampleGetter.

Definition sampleRequest (path header application : string) : Request :=
  {| Method := "POST";
     Url := {| Scheme := "https"; URL_Host := ""; Path := path; RawQuery := "" |};
     Header_ := {[ CertificateInfoHeader := [header] ]};
     Host := "gateway.example.com";
     Vars := {[ "application" := application ]} |}.

Definition sampleWorld : World (gmap string (list string * Z)) := mkWorld ∅ [].

Definition requestWithoutHeader : Request :=
  {| Method := "POST";
     Url := {| Scheme := "https"; URL_Host := ""; Path := "/v1/events"; RawQuery := "" |};
     Header_ := ∅;
     Host := "gateway.example.com";
     Vars := {[ "application" := "app1" ]} |}.

Definition requestWithoutApplication : Request :=
  {| Method := "POST";
     Url := {| Scheme := "https"; URL_Host := ""; Path := "/v1/events"; RawQuery := "" |};
     Header_ := {[ CertificateInfoHeader := ["Subject=CN"] ]};
     Host := "gateway.example.com";
     Vars := ∅ |}.

(** C1 as the design states it: the three transforms on the proxy of every
    destination. *)
Definition allDestinationsStripCert : Prop :=
  forall g t p1 p2 eh mp mh md ap ah getter (r : Request),
    let ph := NewProxyHandler g t p1 p2 eh mp mh md ap ah getter in
    Forall (fun proxy =>
              let out := Director proxy r in
              Header_ out !! CertificateInfoHeader = None
              /\ Host out = ""
              /\ Scheme (Url out) = "http")
           [eventsProxy ph; eventMeshProxy ph; appRegistryProxy ph].

(** C5 as the design states it: the error of a failed lookup carries the
    context [failed to resolve identity for application <name>], and the
    cache is left as it was. *)
Definition failureWrapsResolveIdentityContext : Prop :=
  forall (ph : proxyHandler) (applicationName cause : string)
         (w : World (gmap string (list string * Z))),
    Cache_Get (cache w) applicationName = None ->
    applicationGetter ph applicationName = inr cause ->
    exists e w',
      getCompassMetadataClientIDs ph applicationName w = (Ok ([], Some e), w')
      /\ strings.Contains (message e)
           ("failed to resolve identity for application " +:+ applicationName) = true
      /\ cache w' = cache w.

(** ** The plugin validator of the telemetry operator

    A shallow embedding of [validation/plugin_validator.go].  A Go error is
    its message, [None] for nil.  [strings.TrimSpace], [strings.ToLower]
    and [strings.EqualFold] work on Unicode code points; the model takes
    them as an interface and holds for every implementation of it. *)

Class UnicodeStrings : Type := {
  TrimSpace : string -> string;
  ToLower : string -> string;
  EqualFold : string -> string -> bool
}.

Module telemetryv1alpha1.

(** The types of the log pipeline resource are not among the sources; the
    records keep the fields the validator reads. *)
Record Filter : Type := mkFilter { Filter_Custom : string }.
Record Output : Type := mkOutput { Output_Custom : string }.
Record LogPipelineSpec : Type := mkLogPipelineSpec {
  Filters : list Filter;
  Output_ : Output
}.
Record LogPipeline : Type := mkLogPipeline { Spec : LogPipelineSpec }.
Record LogPipelineList : Type := mkLogPipelineList { Items : list LogPipeline }.

End telemetryv1alpha1.

Module validation.

Import telemetryv1alpha1.

(** [strings.Cut(s, sep)] for a separator of one byte: the text before
    and after the first separator, or the whole text and the empty string
    when there is none. *)
Fixpoint Cut (s : string) (sep : ascii) : string * string * bool :=
  match s with
  | EmptyString => (EmptyString, EmptyString, false)
  | String c t =>
      if Ascii.eqb c sep then (EmptyString, t, true)
      else let '(before, after, found) := Cut t sep in (String c before, after, found)
  end.

(** [errors.Wrap(err, message)] of pkg/errors, on a non-nil error. *)
Definition Wrap (err message : string) : string := message +:+ ": " +:+ err.

Record pluginValidator : Type := mkPluginValidator {
  deniedFilterPlugins : list string;
  deniedOutputPlugins : list string
}.

Definition NewPluginValidator (deniedFilterPlugins deniedOutputPlugins : list string)
    : pluginValidator :=
  {| deniedFilterPlugins := deniedFilterPlugins;
     deniedOutputPlugins := deniedOutputPlugins |}.

(** The loop over the filters of [ContainsCustomPlugin]; the function has
    it twice. *)
Fixpoint anyCustomFilter (filters : list Filter) : bool :=
  match filters with
  | [] => false
  | filterPlugin :: rest =>
      if negb (String.eqb (Filter_Custom filterPlugin) "") then true
      else anyCustomFilter rest
  end.

Definition ContainsCustomPlugin (pv : pluginValidator) (logPipeline : LogPipeline) : bool :=
  if anyCustomFilter (Filters (Spec logPipeline)) then true
  else if negb (String.eqb (Output_Custom (Output_ (Spec logPipeline))) "") then true
  else if anyCustomFilter (Filters (Spec logPipeline)) then true
  else false.

Definition getCustomName (custom : gmap string string) : string * option string :=
  match custom !! "name" with
  | Some name => (name, None)
  | None => ("", Some (fmt.Sprintf "configuration section does not have name attribute" []))
  end.

Definition hasMatchCondition (section : gmap string string) : bool :=
  match section !! "match" with
  | Some _ => true
  | None => false
  end.

Section withStrings.

Context `{UnicodeStrings}.

(** The loop of [parseSection] over the lines of the section. *)
Fixpoint parseSection_loop (lines : list string) (result : gmap string string)
    : gmap string string + string :=
  match lines with
  | [] => inl result
  | line :: rest =>
      let line := TrimSpace line in
      if bool_decide (String.length line = 0%nat) || strings.HasPrefix line "#"
      then parseSection_loop rest result
      else
        let '(key, value, found) := Cut line " " in
        if negb found then inr (fmt.Sprintf "invalid line: %s" [line])
        else parseSection_loop rest
               (<[ToLower (TrimSpace key) := TrimSpace value]> result)
  end.

Definition parseSection (section : string) : gmap string string + string :=
  parseSection_loop (strings.Split section "010") ∅.

(** The line that [parseSection] skips: empty after trimming, or a
    comment. *)
Definition skippedLine (line : string) : Prop :=
  TrimSpace line = "" \/ strings.HasPrefix (TrimSpace line) "#" = true.

Fixpoint deniedLoop (name : string) (denied : list string) : option string :=
  match denied with
  | [] => None
  | deniedPlugin :: rest =>
      if EqualFold name deniedPlugin
      then Some (fmt.Sprintf "plugin '%s' is not supported. " [name])
      else deniedLoop name rest
  end.

Definition checkIfPluginIsValid (content : string) (pipeline : LogPipeline)
    (denied : list string) (pipelines : LogPipelineList) : option string :=
  match parseSection content with
  | inr err => Some err
  | inl customSection =>
      match getCustomName customSection with
      | (_, Some err) => Some err
      | (name, None) =>
          match deniedLoop name denied with
          | Some err => Some err
          | None =>
              if hasMatchCondition customSection
              then Some (fmt.Sprintf
                           "plugin '%s' contains match condition. Match conditions are forbidden"
                           [name])
              else None
          end
      end
  end.

Fixpoint validateFilters_loop (pv : pluginValidator) (filters : list Filter)
    (pipeline : LogPipeline) (pipelines : LogPipelineList) : option string :=
  match filters with
  | [] => None
  | filterPlugin :: rest =>
      match checkIfPluginIsValid (Filter_Custom filterPlugin) pipeline
              (deniedFilterPlugins pv) pipelines with
      | Some err => Some err
      | None => validateFilters_loop pv rest pipeline pipelines
      end
  end.

Definition validateFilters (pv : pluginValidator) (pipeline : LogPipeline)
    (pipelines : LogPipelineList) : option string :=
  validateFilters_loop pv (Filters (Spec pipeline)) pipeline pipelines.

Definition validateOutput (pv : pluginValidator) (pipeline : LogPipeline)
    (pipelines : LogPipelineList) : option string :=
  if bool_decide (String.length (Output_Custom (Output_ (Spec pipeline))) = 0%nat)
  then Some (fmt.Sprintf "no output is defined, you must define one output" [])
  else
    match checkIfPluginIsValid (Output_Custom (Output_ (Spec pipeline))) pipeline
            (deniedOutputPlugins pv) pipelines with
    | Some err => Some err
    | None => None
    end.

Definition Validate (pv : pluginValidator) (logPipeline : LogPipeline)
    (logPipelines : LogPipelineList) : option string :=
  match validateFilters pv logPipeline logPipelines with
  | Some err => Some (Wrap err "error validating filter plugins")
  | None =>
      match validateOutput pv logPipeline logPipelines with
      | Some err => Some (Wrap err "error validating output plugin")
      | None => None
      end
  end.

End withStrings.

End validation.

(** An implementation of the string interface on ASCII text, for the
    closed lemmas: white space is the six ASCII white-space bytes, and
    case is the case of the ASCII letters. *)
Definition asciiIsSpace (c : ascii) : bool :=
  bool_decide (c ∈ [" "%char; "009"%char; "010"%char; "011"%char; "012"%char; "013"%char]).

Fixpoint asciiTrimLeft (s : string) : string :=
  match s with
  | EmptyString => EmptyString
  | String c t => if asciiIsSpace c then asciiTrimLeft t else s
  end.

Fixpoint asciiTrimRight (s : string) : string :=
  match s with
  | EmptyString => EmptyString
  | String c t =>
      match asciiTrimRight t with
      | EmptyString => if asciiIsSpace c then EmptyString else String c EmptyString
      | t' => String c t'
      end
  end.

Fixpoint asciiToLower (s : string) : string :=
  match s with
  | EmptyString => EmptyString
  | String c t => String (textproto.toLower c) (asciiToLower t)
  end.

#[global] Instance asciiStrings : UnicodeStrings := {
  TrimSpace s := asciiTrimRight (asciiTrimLeft s);
  ToLower := asciiToLower;
  EqualFold a b := String.eqb (asciiToLower a) (asciiToLower b)
}.

Definition samplePluginValidator : validation.pluginValidator :=
  validation.NewPluginValidator ["kubernetes"; "rewrite_tag"] ["stdout"].

Definition samplePipeline (filters : list string) (output : string)
    : telemetryv1alpha1.LogPipeline :=
  telemetryv1alpha1.mkLogPipeline
    (telemetryv1alpha1.mkLogPipelineSpec
       (telemetryv1alpha1.mkFilter <$> filters) (telemetryv1alpha1.mkOutput output)).

Definition noPipelines : telemetryv1alpha1.LogPipelineList :=
  telemetryv1alpha1.mkLogPipelineList [].

(** ** Vocabulary of the further properties *)

(** The client identifiers of an application record, as
    [getClientIDsFromResource] reads them. *)
Definition clientIDsOf (application : v1alpha1.Application) : list string :=
  match v1alpha1.CompassMetadata_ (v1alpha1.Spec application) with
  | None => []
  | Some md => v1alpha1.ClientIds (v1alpha1.Authentication_ md)
  end.

(** The events that answer the caller: an error response or the hand-over
    to a reverse proxy. *)
Definition isResponse (e : Event) : bool :=
  match e with
  | EvRespondWithError _ | EvServeHTTP _ => true
  | _ => false
  end.

(** A subject all of whose comma-separated segments have a [=]. *)
Definition wellFormedSubject (rawSubject : string) : Prop :=
  Forall hasSeparator (strings.Split rawSubject ",").

(** Bytes that end a segment or a key. *)
Definition plainText (s : string) : Prop :=
  (","%char ∉ list_ascii_of_string s) /\ ("="%char ∉ list_ascii_of_string s).

(** A subject written from attribute pairs: [k=v] segments joined by
    commas. *)
Fixpoint renderSubject (attributes : list (string * string)) : string :=
  match attributes with
  | [] => ""
  | [(k, v)] => k +:+ "=" +:+ v
  | (k, v) :: rest => k +:+ "=" +:+ v +:+ "," +:+ renderSubject rest
  end.

(** A subject text that can stand between the quotes of the header
    pattern: no quote and no line feed. *)
Definition quotable (dn : string) : Prop :=
  (regexp.quote ∉ list_ascii_of_string dn)
  /\ (regexp.lineFeed ∉ list_ascii_of_string dn).

(** The world after one more call. *)
Definition andThen {C : Type} (w : World C) (e : Event) : World C :=
  mkWorld (cache w) (calls w ++ [e]).

(** How the identifiers of an application are obtained when the resolver
    succeeds: from the cache, or from the application getter on a miss, in
    which case they are stored. *)
Inductive Resolved {C : Type} `{Cache C} (ph : proxyHandler) (applicationName : string)
    (w : World C) : list string -> World C -> Prop :=
  | resolved_hit (ids : list string) :
      Cache_Get (cache w) applicationName = Some ids ->
      Resolved ph applicationName w ids (andThen w (EvCacheGet applicationName))
  | resolved_fetch (application : v1alpha1.Application) :
      Cache_Get (cache w) applicationName = None ->
      applicationGetter ph applicationName = inl application ->
      Resolved ph applicationName w (clientIDsOf application)
        (mkWorld (Cache_Set (cache w) applicationName (clientIDsOf application)
                    DefaultExpiration)
           (calls w ++ [EvCacheGet applicationName; EvApplicationGet applicationName;
                        EvCacheSet applicationName (clientIDsOf application)
                          DefaultExpiration])).

(** The runs of the handler on a request, by the stage that ends them. *)
Inductive HandlerRun {C : Type} `{Cache C} (ph : proxyHandler) (r : Request)
    (w : World C) : Outcome unit -> World C -> Prop :=
  | run_no_header :
      Header_Get (Header_ r) CertificateInfoHeader = "" ->
      HandlerRun ph r w (Ok tt)
        (andThen w (EvRespondWithError
                      (mkAppError CodeInternal "X-Forwarded-Client-Cert header not found")))
  | run_no_application :
      Header_Get (Header_ r) CertificateInfoHeader <> "" ->
      map_index (Vars r) "application" = "" ->
      HandlerRun ph r w (Ok tt)
        (andThen w (EvRespondWithError
                      (mkAppError CodeBadRequest "Application name not specified")))
  | run_lookup_failed (cause : string) :
      Header_Get (Header_ r) CertificateInfoHeader <> "" ->
      map_index (Vars r) "application" <> "" ->
      Cache_Get (cache w) (map_index (Vars r) "application") = None ->
      applicationGetter ph (map_index (Vars r) "application") = inr cause ->
      HandlerRun ph r w (Ok tt)
        (mkWorld (cache w)
           (calls w ++
            [EvCacheGet (map_index (Vars r) "application");
             EvApplicationGet (map_index (Vars r) "application");
             EvRespondWithError
               (mkAppError CodeInternal
                  ("Failed to get Application ClientIds: failed to get "
                   +:+ map_index (Vars r) "application" +:+ " application: " +:+ cause))]))
  | run_parse_panic (ids : list string) (w1 : World C) (e : RuntimeError) :
      Header_Get (Header_ r) CertificateInfoHeader <> "" ->
      map_index (Vars r) "application" <> "" ->
      Resolved ph (map_index (Vars r) "application") w ids w1 ->
      hasValidSubject (extractSubjects (Header_Get (Header_ r) CertificateInfoHeader))
        ids (map_index (Vars r) "application") (group ph) (tenant ph) = Panic e ->
      HandlerRun ph r w (Panic e) w1
  | run_forbidden (ids : list string) (w1 : World C) :
      Header_Get (Header_ r) CertificateInfoHeader <> "" ->
      map_index (Vars r) "application" <> "" ->
      Resolved ph (map_index (Vars r) "application") w ids w1 ->
      hasValidSubject (extractSubjects (Header_Get (Header_ r) CertificateInfoHeader))
        ids (map_index (Vars r) "application") (group ph) (tenant ph) = Ok false ->
      HandlerRun ph r w (Ok tt)
        (andThen w1 (EvRespondWithError (mkAppError CodeForbidden "No valid subject found")))
  | run_not_found (ids : list string) (w1 : World C) (err : AppError) :
      Header_Get (Header_ r) CertificateInfoHeader <> "" ->
      map_index (Vars r) "application" <> "" ->
      Resolved ph (map_index (Vars r) "application") w ids w1 ->
      hasValidSubject (extractSubjects (Header_Get (Header_ r) CertificateInfoHeader))
        ids (map_index (Vars r) "application") (group ph) (tenant ph) = Ok true ->
      mapRequestToProxy ph (Path (Url r)) = (None, Some err) ->
      code err = CodeNotFound ->
      HandlerRun ph r w (Ok tt) (andThen w1 (EvRespondWithError err))
  | run_forward (ids : list string) (w1 : World C) (proxy : ReverseProxy) :
      Header_Get (Header_ r) CertificateInfoHeader <> "" ->
      map_index (Vars r) "application" <> "" ->
      Resolved ph (map_index (Vars r) "application") w ids w1 ->
      hasValidSubject (extractSubjects (Header_Get (Header_ r) CertificateInfoHeader))
        ids (map_index (Vars r) "application") (group ph) (tenant ph) = Ok true ->
      mapRequestToProxy ph (Path (Url r)) = (Some proxy, None) ->
      HandlerRun ph r w (Ok tt) (andThen w1 (EvServeHTTP (Director proxy r))).

(** A header value written from a chain of subjects: one entry for each,
    each followed by a semicolon. *)
Fixpoint renderHeader (dns : list string) : string :=
  match dns with
  | [] => ""
  | dn :: rest => subjectEntry dn +:+ ";" +:+ renderHeader rest
  end.

(** What a director leaves of the inbound request: the method, the query
    and the route variables, and every header but the certificate header;
    the URL host is the one of the destination. *)
Definition keepsRest (destinationHost : string) (r out : Request) : Prop :=
  Method out = Method r
  /\ RawQuery (Url out) = RawQuery (Url r)
  /\ Vars out = Vars r
  /\ URL_Host (Url out) = destinationHost
  /\ forall key, key <> CertificateInfoHeader -> Header_ out !! key = Header_ r !! key.

(** The request options of the file, for a rewrite path. *)
Definition knownOptions (path : string) : list requestOption :=
  [withRewriteBaseURL path; withEmptyRequestHost; withEmptyXFwdClientCert; withHTTPScheme].

(** A world whose cache holds identifiers for [app2]. *)
Definition warmWorld : World (gmap string (list string * Z)) :=
  mkWorld (<["app2" := (["id1"], 0%Z)]> ∅) [].

(** ** Facts about strings *)

Lemma append_empty_r (s : string) : s +:+ "" = s.
Proof.
  induction s as [|c s IH]; [reflexivity|].
  change (String c (s +:+ "") = String c s). now f_equal.
Qed.

Lemma eqb_bool_decide (a b : string) : String.eqb a b = bool_decide (a = b).
Proof.
  destruct (String.eqb_spec a b) as [->|Hne].
  - now rewrite bool_decide_eq_true_2.
  - now rewrite bool_decide_eq_false_2.
Qed.

Lemma canonical_CertificateInfoHeader :
  textproto.CanonicalMIMEHeaderKey CertificateInfoHeader = CertificateInfoHeader.
Proof. reflexivity. Qed.

Lemma Header_Get_absent (h : Header) :
  h !! CertificateInfoHeader = None -> Header_Get h CertificateInfoHeader = "".
Proof.
  intros Hnone. unfold Header_Get.
  now rewrite canonical_CertificateInfoHeader, Hnone.
Qed.

Lemma Header_Del_lookup (h : Header) :
  Header_Del h "X-Forwarded-Client-Cert" !! CertificateInfoHeader = None.
Proof.
  unfold Header_Del. change "X-Forwarded-Client-Cert" with CertificateInfoHeader.
  rewrite canonical_CertificateInfoHeader. apply lookup_delete_eq.
Qed.

(** ** Facts about parsing and the validators *)

Lemma areStringsFilled_pair (g t : string) :
  areStringsFilled [g; t] = Design.hasScoping g t.
Proof.
  unfold Design.hasScoping. simpl. rewrite !eqb_bool_decide.
  repeat case_bool_decide; try reflexivity; tauto.
Qed.

Lemma commonNameIn_elem_of (ids : list string) (n : pkix.Name) :
  commonNameIn ids n = bool_decide (pkix.CommonName n ∈ ids).
Proof.
  induction ids as [|id ids IH]; simpl.
  - reflexivity.
  - rewrite eqb_bool_decide, IH.
    destruct (decide (pkix.CommonName n = id)) as [Heq|Hne].
    + rewrite !bool_decide_eq_true_2; [reflexivity | | exact Heq].
      rewrite Heq. apply list_elem_of_here.
    + rewrite (bool_decide_eq_false_2 _ Hne).
      apply bool_decide_ext. rewrite elem_of_cons. tauto.
Qed.

Lemma validateSubjectField_singleton (v expected : string) :
  validateSubjectField [v] expected = bool_decide (v = expected).
Proof.
  unfold validateSubjectField. simpl. now rewrite eqb_bool_decide.
Qed.

Lemma parseSubject_singletons (raw : string) (n : pkix.Name) :
  parseSubject raw = Ok n ->
  pkix.Organization n = [Design.Organization (Design.ofName n)] /\
  pkix.OrganizationalUnit n = [Design.OrganizationalUnit (Design.ofName n)].
Proof.
  unfold parseSubject. destruct (extractSubject raw) as [m|e]; simpl; [|discriminate].
  intros [= <-]. split; reflexivity.
Qed.

Lemma newSubjectValidator_policy (ids : list string) (app g t raw : string)
    (n : pkix.Name) :
  parseSubject raw = Ok n ->
  newSubjectValidator ids app g t n =
  Design.policy (Design.hasClientIDs ids) (Design.hasScoping g t) ids app g t
                (Design.ofName n).
Proof.
  intros Hparse. destruct (parseSubject_singletons raw n Hparse) as [HO HOU].
  assert (Hlen : bool_decide (length ids = 0%nat) = negb (Design.hasClientIDs ids))
    by (destruct ids; reflexivity).
  assert (Happ : String.eqb app (pkix.CommonName n)
                 = bool_decide (Design.CommonName (Design.ofName n) = app)).
  { rewrite eqb_bool_decide. apply bool_decide_ext. simpl. split; congruence. }
  unfold newSubjectValidator. rewrite areStringsFilled_pair, Hlen.
  destruct (Design.hasClientIDs ids), (Design.hasScoping g t);
    cbn [negb andb Design.policy];
    unfold validateCommonNameWithAppName, validateCommonNameWithClientIDs;
    rewrite ?Happ, ?HO, ?HOU, ?commonNameIn_elem_of,
      ?validateSubjectField_singleton;
    reflexivity.
Qed.

Lemma hasValidSubject_loop_existsb (v : pkix.Name -> bool) (p : Design.ParsedSubject -> bool)
    (subjects : list string) (names : list pkix.Name) :
  (forall raw n, parseSubject raw = Ok n -> v n = p (Design.ofName n)) ->
  parseSubjects subjects = Ok names ->
  hasValidSubject_loop v subjects = Ok (existsb p (Design.ofName <$> names)).
Proof.
  intros Hv. revert names.
  induction subjects as [|s rest IH]; intros names Hall; simpl in *.
  - now injection Hall as <-.
  - destruct (parseSubject s) as [n|e] eqn:Hs; simpl in *; [|discriminate].
    destruct (parseSubjects rest) as [ns|e] eqn:Hrest; simpl in *; [|discriminate].
    injection Hall as <-. simpl. rewrite <- (Hv s n Hs).
    destruct (v n); [reflexivity|]. now apply IH.
Qed.

(** ** When [extractSubject] panics *)

Lemma Split_not_nil (s : string) (sep : ascii) : strings.Split s sep <> [].
Proof.
  destruct s as [|c t]; simpl; [discriminate|].
  destruct (Ascii.eqb c sep); [discriminate|].
  destruct (strings.Split t sep); discriminate.
Qed.

Lemma Split_without_separator (s : string) (sep : ascii) :
  sep ∉ list_ascii_of_string s -> strings.Split s sep = [s].
Proof.
  induction s as [|c t IH]; simpl; intros Hnot; [reflexivity|].
  destruct (Ascii.eqb_spec c sep) as [->|Hne].
  - exfalso. apply Hnot. apply list_elem_of_here.
  - rewrite IH; [reflexivity|]. intros Hin. apply Hnot. now apply list_elem_of_further.
Qed.

Lemma Split_with_separator (s : string) (sep : ascii) :
  sep ∈ list_ascii_of_string s ->
  exists p0 p1 rest, strings.Split s sep = p0 :: p1 :: rest.
Proof.
  induction s as [|c t IH]; simpl; intros Hin.
  - now apply elem_of_nil in Hin.
  - destruct (Ascii.eqb_spec c sep) as [->|Hne].
    + destruct (strings.Split t sep) as [|p1 rest] eqn:Ht.
      * now apply Split_not_nil in Ht.
      * now exists EmptyString, p1, rest.
    + apply elem_of_cons in Hin. destruct Hin as [Heq|Hin]; [congruence|].
      destruct (IH Hin) as (p0 & p1 & rest & ->).
      now exists (String c p0), p1, rest.
Qed.

(** A segment without [=] anywhere among the segments makes the loop
    panic, whatever the other segments are. *)
Lemma extractSubject_loop_panics (segments : list string) (result : gmap string string) :
  Exists (fun segment => ~ hasSeparator segment) segments ->
  extractSubject_loop segments result = Panic (IndexOutOfRange 1 1).
Proof.
  intros Hex. revert result.
  induction Hex as [segment rest Hnot | segment rest Hex IH]; intros result; simpl.
  - now rewrite (Split_without_separator segment "=" Hnot).
  - destruct (decide (hasSeparator segment)) as [Hin|Hnot].
    + destruct (Split_with_separator segment "=" Hin) as (p0 & p1 & ps & ->).
      simpl. apply IH.
    + now rewrite (Split_without_separator segment "=" Hnot).
Qed.

(** When every segment has a [=], the loop ends without panic. *)
Lemma extractSubject_loop_total (segments : list string) (result : gmap string string) :
  Forall hasSeparator segments ->
  exists m, extractSubject_loop segments result = Ok m.
Proof.
  intros Hall. revert result.
  induction Hall as [|segment rest Hin _ IH]; intros result; simpl.
  - now exists result.
  - destruct (Split_with_separator segment "=" Hin) as (p0 & p1 & ps & ->).
    simpl. apply IH.
Qed.

(** [extractSubject] returns exactly on the subjects all of whose
    comma-separated segments have a [=]. *)
Lemma extractSubject_returns_iff (subject : string) :
  (exists m, extractSubject subject = Ok m)
  <-> Forall hasSeparator (strings.Split subject ",").
Proof.
  unfold extractSubject. split.
  - intros [m Hm]. apply Forall_forall. intros segment Hsegment.
    destruct (decide (hasSeparator segment)) as [Hin|Hnot]; [exact Hin|].
    exfalso.
    assert (Hex : Exists (fun segment => ~ hasSeparator segment)
                    (strings.Split subject ","))
      by (apply Exists_exists; now exists segment).
    rewrite (extractSubject_loop_panics _ _ Hex) in Hm. discriminate Hm.
  - apply extractSubject_loop_total.
Qed.

(** ** C1: transforms common to the destinations *)

(** The part of the transforms that every destination has, and the proxies
    that delete the certificate header: for every inbound request the
    directors of the event-service and event-mesh proxies delete the
    X-Forwarded-Client-Cert header, and the three directors clear the Host
    field and set the scheme to http. *)
Lemma proxies_common_transforms :
  forall g t p1 p2 eh mp mh md ap ah getter (r : Request),
    let ph := NewProxyHandler g t p1 p2 eh mp mh md ap ah getter in
    Forall (fun proxy =>
              let out := Director proxy r in
              Header_ out !! CertificateInfoHeader = None
              /\ Header_Get (Header_ out) CertificateInfoHeader = "")
           [eventsProxy ph; eventMeshProxy ph]
    /\ Forall (fun proxy =>
                 let out := Director proxy r in
                 Host out = "" /\ Scheme (Url out) = "http")
              [eventsProxy ph; eventMeshProxy ph; appRegistryProxy ph].
Proof.
  intros. subst ph. split.
  - repeat constructor; simpl;
      try apply Header_Get_absent; apply Header_Del_lookup.
  - repeat constructor.
Qed.

(** C1: the code does not have the property for the app-registry
    destination.  The request of the application [app1] for
    [/v1/metadata/services], whose X-Forwarded-Client-Cert header presents
    the subject [CN=app1], is authorized and handed to the app-registry
    proxy with that header still on it, while the same request for
    [/v1/events] goes to the event-service proxy without it:
    [appRegistryProxy] is built without [withEmptyXFwdClientCert], which
    its two sibling proxies have.  So the claim, as the design states it
    for every destination, is false of the code. *)
Theorem C1_app_registry_leaks_client_cert :
  (exists before out,
     calls (snd (ProxyAppConnectorRequests sampleHandler
                   (sampleRequest "/v1/metadata/services" (subjectEntry "CN=app1") "app1")
                   sampleWorld))
       = (before ++ [EvServeHTTP out])%list
     /\ URL_Host (Url out) = "registry.svc:8081"
     /\ Host out = "" /\ Scheme (Url out) = "http"
     /\ Header_ out !! CertificateInfoHeader = Some [subjectEntry "CN=app1"]
     /\ Header_Get (Header_ out) CertificateInfoHeader = subjectEntry "CN=app1")
  /\ (exists before out,
        calls (snd (ProxyAppConnectorRequests sampleHandler
                      (sampleRequest "/v1/events" (subjectEntry "CN=app1") "app1")
                      sampleWorld))
          = (before ++ [EvServeHTTP out])%list
        /\ URL_Host (Url out) = "events.svc:8081"
        /\ Header_ out !! CertificateInfoHeader = None)
  /\ ~ allDestinationsStripCert.
Proof.
  split; [|split].
  - eexists [_; _; _], _. split; [vm_compute; reflexivity|]. repeat split.
  - eexists [_; _; _], _. split; [vm_compute; reflexivity|]. repeat split.
  - intros Hall.
    specialize (Hall "" "" "/v1/events" "/v2/events" "events.svc:8081"
      "/events" "mesh.svc:80" "/publish" "/v1/metadata" "registry.svc:8081"
      sampleGetter
      (sampleRequest "/v1/metadata/services" (subjectEntry "CN=app1") "app1")).
    cbv zeta in Hall. rewrite !Forall_cons in Hall.
    destruct Hall as (_ & _ & (Habs & _) & _). discriminate Habs.
Qed.

(** ** C2: a subject segment without separator *)

(** C2: the code does not have the property.  On a subject with a segment
    without [=], [extractSubject] indexes past the end of the parts: the
    parse panics, and so do the authorization and the handler that run
    it. *)
Theorem C2_segment_without_separator_panics :
  extractSubject "CN=app1,malformed" = Panic (IndexOutOfRange 1 1)
  /\ parseSubject "malformed" = Panic (IndexOutOfRange 1 1)
  /\ hasValidSubject ["malformed"] [] "app1" "" "" = Panic (IndexOutOfRange 1 1)
  /\ fst (ProxyAppConnectorRequests sampleHandler
            (sampleRequest "/v1/events" (subjectEntry "malformed") "app1")
            sampleWorld)
     = Panic (IndexOutOfRange 1 1).
Proof. repeat split; vm_compute; reflexivity. Qed.

(** ** C3: authorization *)

(** C3: when the presented subjects parse, authorization is the
    disjunction, over the parsed subjects, of the one predicate of the
    table that the two booleans select, and the code's validator is that
    predicate on every parsed subject; without subject the answer is
    false. *)
Theorem C3_authorization_policy (subjects : list string) (names : list pkix.Name)
    (identity : list string) (applicationName group tenant : string) :
  parseSubjects subjects = Ok names ->
  hasValidSubject subjects identity applicationName group tenant
    = Ok (Design.Authorize (Design.ofName <$> names) identity applicationName group tenant)
  /\ Forall (fun n =>
               newSubjectValidator identity applicationName group tenant n
               = Design.policy (bool_decide (0 < length identity)%nat)
                   (bool_decide (group ≠ "" ∧ tenant ≠ ""))
                   identity applicationName group tenant (Design.ofName n))
            names
  /\ hasValidSubject [] identity applicationName group tenant = Ok false.
Proof.
  intros Hall. split; [|split].
  - unfold hasValidSubject, Design.Authorize.
    apply hasValidSubject_loop_existsb; [|exact Hall].
    intros raw n. apply newSubjectValidator_policy.
  - clear -Hall. revert names Hall.
    induction subjects as [|s rest IH]; intros names Hall; simpl in Hall.
    + injection Hall as <-. constructor.
    + destruct (parseSubject s) as [n|e] eqn:Hs; simpl in Hall; [|discriminate].
      destruct (parseSubjects rest) as [ns|e]; simpl in Hall; [|discriminate].
      injection Hall as <-. constructor; [|now apply IH].
      exact (newSubjectValidator_policy identity applicationName group tenant s n Hs).
  - reflexivity.
Qed.

(** C3, at two subjects of which the second is the application's. *)
Lemma C3_authorization_policy_witness :
  hasValidSubject ["CN=wrong"; "CN=app1,O=t1,OU=g1"] [] "app1" "g1" "t1" = Ok true.
Proof.
  destruct (C3_authorization_policy ["CN=wrong"; "CN=app1,O=t1,OU=g1"]
              (match parseSubjects ["CN=wrong"; "CN=app1,O=t1,OU=g1"] with
               | Ok ns => ns | Panic _ => [] end)
              [] "app1" "g1" "t1") as (Hres & _ & _).
  - vm_compute. reflexivity.
  - rewrite Hres. vm_compute. reflexivity.
Defined.

(** ** C4: routing *)

(** C4: routing is the first match of the ordered rules v1-events,
    v2-events (the mesh proxy when the mesh flag is set, the event-service
    proxy otherwise), event-mesh, app-registry; when no prefix starts the
    path, routing gives a NotFound error and no proxy. *)
Theorem C4_routing_first_match (ph : proxyHandler) (path : string) :
  mapRequestToProxy ph path =
  match Design.firstMatch (routingRules ph) path with
  | Some proxy => (Some proxy, None)
  | None =>
      (None,
       Some {| code := CodeNotFound;
               message := "Could not determine destination host. Requested resource not found" |})
  end.
Proof.
  unfold mapRequestToProxy, Design.firstMatch, routingRules, strings.HasPrefix.
  simpl.
  destruct (String.prefix (eventServicePathPrefixV1 ph) path); [reflexivity|].
  destruct (String.prefix (eventServicePathPrefixV2 ph) path);
    [destruct (isBEBEnabled ph); reflexivity|].
  destruct (String.prefix (eventMeshPathPrefix ph) path); [reflexivity|].
  destruct (String.prefix (appRegistryPathPrefix ph) path); reflexivity.
Qed.

(** ** C5 and C6: identity resolution on a cache miss *)

Section resolution.

Context {C : Type} `{Cache C}.

Lemma getCompassMetadataClientIDs_failure (ph : proxyHandler)
    (applicationName cause : string) (w : World C) :
  Cache_Get (cache w) applicationName = None ->
  applicationGetter ph applicationName = inr cause ->
  getCompassMetadataClientIDs ph applicationName w =
  (Ok ([], Some (Internal "failed to get %s application: %s" [applicationName; cause])),
   mkWorld (cache w)
     (calls w ++ [EvCacheGet applicationName; EvApplicationGet applicationName])).
Proof.
  intros Hmiss Hget.
  unfold getCompassMetadataClientIDs, getClientIDsFromCache,
    getClientIDsFromResource, applicationGet, cacheGet, emit, mbind, M_bind,
    mret, M_ret.
  simpl. rewrite Hmiss. simpl. rewrite Hget. simpl.
  now rewrite <- app_assoc.
Qed.

Lemma getCompassMetadataClientIDs_success (ph : proxyHandler)
    (applicationName : string) (application : v1alpha1.Application) (w : World C) :
  Cache_Get (cache w) applicationName = None ->
  applicationGetter ph applicationName = inl application ->
  let ids :=
    match v1alpha1.CompassMetadata_ (v1alpha1.Spec application) with
    | None => []
    | Some md => v1alpha1.ClientIds (v1alpha1.Authentication_ md)
    end in
  getCompassMetadataClientIDs ph applicationName w =
  (Ok (ids, None),
   mkWorld (Cache_Set (cache w) applicationName ids DefaultExpiration)
     (calls w ++ [EvCacheGet applicationName; EvApplicationGet applicationName;
                  EvCacheSet applicationName ids DefaultExpiration])).
Proof.
  intros Hmiss Hget ids. subst ids.
  unfold getCompassMetadataClientIDs, getClientIDsFromCache,
    getClientIDsFromResource, applicationGet, cacheGet, cacheSet, emit, mbind,
    M_bind, mret, M_ret.
  simpl. rewrite Hmiss. simpl. rewrite Hget. simpl.
  destruct (v1alpha1.CompassMetadata_ (v1alpha1.Spec application)); simpl;
    now rewrite <- !app_assoc.
Qed.

End resolution.

Lemma Sprintf_failed_to_get (applicationName cause : string) :
  fmt.Sprintf "failed to get %s application: %s" [applicationName; cause]
  = "failed to get " +:+ applicationName +:+ " application: " +:+ cause.
Proof.
  cbn -[String.append]. rewrite append_empty_r. reflexivity.
Qed.

(** C5, counterexample: for the application [unknown], whose lookup fails
    with [not found], the message of the error is
    [failed to get unknown application: not found]; it does not contain the
    context of the claim. *)
Lemma C5_failure_message_has_other_context :
  (exists e w',
     getCompassMetadataClientIDs sampleHandler "unknown" sampleWorld
       = (Ok ([], Some e), w')
     /\ message e = "failed to get unknown application: not found"
     /\ strings.Contains (message e)
          "failed to resolve identity for application unknown" = false)
  /\ ~ failureWrapsResolveIdentityContext.
Proof.
  split.
  - eexists _, _. split; [vm_compute; reflexivity|]. split; reflexivity.
  - intros Hclaim.
    destruct (Hclaim sampleHandler "unknown" "not found" sampleWorld)
      as (e & w' & Hrun & Hctx & _); [reflexivity | reflexivity |].
    vm_compute in Hrun. injection Hrun as <- <-. vm_compute in Hctx. discriminate Hctx.
Qed.

(** C5, amended: on a cache miss, when the call of the application getter
    fails, the resolver returns no identifier and an Internal error whose
    message is [failed to get <name> application: <cause>]; the cache is
    not written: its state is the one before the call, and the only calls
    made are the cache lookup and the getter call. *)
Theorem C5_failure_not_cached {C : Type} `{Cache C} (ph : proxyHandler)
    (applicationName cause : string) (w : World C) :
  Cache_Get (cache w) applicationName = None ->
  applicationGetter ph applicationName = inr cause ->
  getCompassMetadataClientIDs ph applicationName w =
  (Ok ([], Some {| code := CodeInternal;
                   message := "failed to get " +:+ applicationName
                              +:+ " application: " +:+ cause |}),
   mkWorld (cache w)
     (calls w ++ [EvCacheGet applicationName; EvApplicationGet applicationName])).
Proof.
  intros Hmiss Hget.
  rewrite (getCompassMetadataClientIDs_failure ph applicationName cause w Hmiss Hget).
  unfold Internal. now rewrite Sprintf_failed_to_get.
Qed.

(** C5, at the application [unknown] and the empty cache. *)
Lemma C5_failure_not_cached_witness :
  getCompassMetadataClientIDs sampleHandler "unknown" sampleWorld =
  (Ok ([], Some {| code := CodeInternal;
                   message := "failed to get unknown application: not found" |}),
   mkWorld ∅ [EvCacheGet "unknown"; EvApplicationGet "unknown"]).
Proof.
  apply (C5_failure_not_cached sampleHandler "unknown" "not found" sampleWorld);
    reflexivity.
Defined.

(** C6: on a cache miss, when the getter succeeds and the application has
    no identity metadata, the resolver returns the empty list and no error,
    and stores the empty list under the application name with the default
    expiration; an application with metadata has its identifiers returned
    and stored by the same call of [Set]. *)
Theorem C6_missing_metadata_cached {C : Type} `{Cache C} (ph : proxyHandler)
    (applicationName : string) (application : v1alpha1.Application) (w : World C) :
  Cache_Get (cache w) applicationName = None ->
  applicationGetter ph applicationName = inl application ->
  (v1alpha1.CompassMetadata_ (v1alpha1.Spec application) = None ->
   getCompassMetadataClientIDs ph applicationName w =
   (Ok ([], None),
    mkWorld (Cache_Set (cache w) applicationName [] DefaultExpiration)
      (calls w ++ [EvCacheGet applicationName; EvApplicationGet applicationName;
                   EvCacheSet applicationName [] DefaultExpiration])))
  /\ (forall md,
        v1alpha1.CompassMetadata_ (v1alpha1.Spec application) = Some md ->
        let ids := v1alpha1.ClientIds (v1alpha1.Authentication_ md) in
        getCompassMetadataClientIDs ph applicationName w =
        (Ok (ids, None),
         mkWorld (Cache_Set (cache w) applicationName ids DefaultExpiration)
           (calls w ++ [EvCacheGet applicationName; EvApplicationGet applicationName;
                        EvCacheSet applicationName ids DefaultExpiration]))).
Proof.
  intros Hmiss Hget.
  pose proof (getCompassMetadataClientIDs_success ph applicationName application w
                Hmiss Hget) as Hrun.
  cbv zeta in Hrun. split.
  - intros Hnone. now rewrite Hnone in Hrun.
  - intros md Hsome. now rewrite Hsome in Hrun.
Qed.

(** C6, at the application [app1], which has no metadata, and the empty
    cache: the next lookup of [app1] finds the empty list. *)
Lemma C6_missing_metadata_cached_witness :
  exists w',
    getCompassMetadataClientIDs sampleHandler "app1" sampleWorld = (Ok ([], None), w')
    /\ Cache_Get (cache w') "app1" = Some []
    /\ calls w' = [EvCacheGet "app1"; EvApplicationGet "app1";
                   EvCacheSet "app1" [] DefaultExpiration].
Proof.
  eexists. split; [|split].
  - apply (proj1 (@C6_missing_metadata_cached _ mapCache sampleHandler "app1"
                    (v1alpha1.mkApplication (v1alpha1.mkApplicationSpec None))
                    sampleWorld ltac:(reflexivity) ltac:(reflexivity))).
    reflexivity.
  - reflexivity.
  - reflexivity.
Defined.

(** ** C7: requests without certificate header or application name *)

(** C7: when the X-Forwarded-Client-Cert header is absent or empty, the
    handler answers with an Internal error; when the header has a value and
    the [application] route variable is absent or empty, it answers with a
    BadRequest error.  In both cases the error response is the only call
    made: the cache, the application getter and the proxies are not
    called, and the cache is as it was. *)
Theorem C7_missing_header_or_application {C : Type} `{Cache C}
    (ph : proxyHandler) (r : Request) (w : World C) :
  (Header_ r !! CertificateInfoHeader = None
   \/ Header_Get (Header_ r) CertificateInfoHeader = "" ->
   ProxyAppConnectorRequests ph r w =
   (Ok tt,
    mkWorld (cache w)
      (calls w ++ [EvRespondWithError
                     {| code := CodeInternal;
                        message := "X-Forwarded-Client-Cert header not found" |}])))
  /\ (Header_Get (Header_ r) CertificateInfoHeader <> "" ->
      Vars r !! "application" = None \/ Vars r !! "application" = Some "" ->
      ProxyAppConnectorRequests ph r w =
      (Ok tt,
       mkWorld (cache w)
         (calls w ++ [EvRespondWithError
                        {| code := CodeBadRequest;
                           message := "Application name not specified" |}]))).
Proof.
  split.
  - intros Hhdr.
    assert (Hget : Header_Get (Header_ r) CertificateInfoHeader = "")
      by (destruct Hhdr as [Habs|Hemp]; [now apply Header_Get_absent | exact Hemp]).
    unfold ProxyAppConnectorRequests. rewrite Hget. reflexivity.
  - intros Hhdr Hvar.
    assert (Happ : map_index (Vars r) "application" = "")
      by (unfold map_index; destruct Hvar as [-> | ->]; reflexivity).
    unfold ProxyAppConnectorRequests.
    apply String.eqb_neq in Hhdr. rewrite Hhdr, Happ. reflexivity.
Qed.

(** C7, at a request without header and at a request without route
    variable, on the empty cache. *)
Lemma C7_missing_header_or_application_witness :
  ProxyAppConnectorRequests sampleHandler requestWithoutHeader sampleWorld =
  (Ok tt,
   mkWorld ∅ [EvRespondWithError
                {| code := CodeInternal;
                   message := "X-Forwarded-Client-Cert header not found" |}])
  /\ ProxyAppConnectorRequests sampleHandler requestWithoutApplication sampleWorld =
     (Ok tt,
      mkWorld ∅ [EvRespondWithError
                   {| code := CodeBadRequest;
                      message := "Application name not specified" |}]).
Proof.
  split.
  - apply (proj1 (@C7_missing_header_or_application _ mapCache sampleHandler
                    requestWithoutHeader sampleWorld)).
    left. reflexivity.
  - apply (proj2 (@C7_missing_header_or_application _ mapCache sampleHandler
                    requestWithoutApplication sampleWorld)).
    + vm_compute. discriminate.
    + left. reflexivity.
Defined.

(** ** C8: the path of the mesh destination *)

(** C8: the director of the event-mesh proxy sets the path of the outgoing
    request to the configured destination path, whatever the path of the
    inbound request; the directors of the event-service and app-registry
    proxies leave the path as it is. *)
Theorem C8_mesh_path_rewrite :
  forall g t p1 p2 eh mp mh md ap ah getter (r : Request),
    let ph := NewProxyHandler g t p1 p2 eh mp mh md ap ah getter in
    Path (Url (Director (eventMeshProxy ph) r)) = md
    /\ Path (Url (Director (eventsProxy ph) r)) = Path (Url r)
    /\ Path (Url (Director (appRegistryProxy ph) r)) = Path (Url r).
Proof. intros. repeat split. Qed.

(** ** C9: the mesh flag *)

(** C9: the mesh flag of a new handler is set exactly when the configured
    mesh destination path is [/publish]; a path that differs in case or has
    a trailing character gives a handler without the flag. *)
Theorem C9_mesh_flag_from_destination_path :
  (forall g t p1 p2 eh mp mh md ap ah getter,
     isBEBEnabled (NewProxyHandler g t p1 p2 eh mp mh md ap ah getter) = true
     <-> md = "/publish")
  /\ (forall g t p1 p2 eh mp mh ap ah getter,
        isBEBEnabled (NewProxyHandler g t p1 p2 eh mp mh "/Publish" ap ah getter) = false
        /\ isBEBEnabled (NewProxyHandler g t p1 p2 eh mp mh "/publish/" ap ah getter) = false).
Proof.
  split.
  - intros. simpl. unfold BEBEnabledPublishEndpoint.
    destruct (String.eqb_spec md "/publish") as [->|Hne]; split;
      try reflexivity; try congruence; discriminate.
  - intros. split; reflexivity.
Qed.

(** ** C10: extracted subjects are not empty *)

Lemma extractSubjects_loop_nonempty (subjectMatches : list (list string))
    (subjects : list string) :
  Forall (fun s => s <> "") subjects ->
  Forall (fun s => s <> "") (extractSubjects_loop subjectMatches subjects).
Proof.
  revert subjects.
  induction subjectMatches as [|m rest IH]; intros subjects Hacc; simpl.
  - exact Hacc.
  - destruct (String.eqb_spec (get m 1) "") as [Hemp|Hne]; simpl.
    + now apply IH.
    + apply IH. apply Forall_app. split; [exact Hacc|].
      constructor; [exact Hne | constructor].
Qed.

(** C10: no subject that [extractSubjects] returns is the empty string,
    whatever the header value; an occurrence of the pattern with nothing
    between the quotes gives no subject. *)
Theorem C10_extracted_subjects_nonempty :
  (forall certInfoData : string,
     Forall (fun s => s <> "") (extractSubjects certInfoData))
  /\ regexp.FindAllStringSubmatch (subjectEntry "")
     = [[subjectEntry ""; ""]]
  /\ extractSubjects (subjectEntry "") = []
  /\ extractSubjects (subjectEntry "" +:+ ";" +:+ subjectEntry "CN=app1")
     = ["CN=app1"].
Proof.
  split; [|repeat split].
  intros certInfoData. unfold extractSubjects.
  apply extractSubjects_loop_nonempty. constructor.
Qed.


(** ** The pipeline on sample requests *)

(** A request for [app1] on the event-mesh prefix, with a chain of two
    subjects of which the second is the application's: the identifiers are
    looked up and cached, and the request goes to the mesh host with the
    path [/publish], the scheme http, no Host and no certificate header. *)
Example pipeline_mesh :
  let '(res, w') :=
    ProxyAppConnectorRequests sampleHandler
      (sampleRequest "/events/x" (subjectEntry "CN=wrong" +:+ "," +:+ subjectEntry "CN=app1")
                     "app1")
      sampleWorld in
  res = Ok tt
  /\ exists out,
       calls w' = [EvCacheGet "app1"; EvApplicationGet "app1";
                   EvCacheSet "app1" [] DefaultExpiration; EvServeHTTP out]
       /\ Url out = {| Scheme := "http"; URL_Host := "mesh.svc:80";
                       Path := "/publish"; RawQuery := "" |}
       /\ Host out = ""
       /\ Header_ out !! CertificateInfoHeader = None.
Proof. vm_compute. split; [reflexivity|]. eexists. repeat split. Qed.

(** A request whose subject is not the application's is answered with a
    Forbidden error and reaches no proxy. *)
Example pipeline_forbidden :
  calls (snd (ProxyAppConnectorRequests sampleHandler
                (sampleRequest "/events" (subjectEntry "CN=other") "app1")
                sampleWorld))
  = [EvCacheGet "app1"; EvApplicationGet "app1";
     EvCacheSet "app1" [] DefaultExpiration;
     EvRespondWithError {| code := CodeForbidden; message := "No valid subject found" |}].
Proof. reflexivity. Qed.


(** ** Further properties of identity resolution *)

Ltac unfold_M :=
  unfold getCompassMetadataClientIDs, getClientIDsFromCache,
    getClientIDsFromResource, applicationGet, cacheGet, cacheSet,
    RespondWithError, ServeHTTP, liftOutcome, emit, mbind, M_bind, mret, M_ret.

Lemma getCompassMetadataClientIDs_hit {C : Type} `{Cache C} (ph : proxyHandler)
    (applicationName : string) (ids : list string) (w : World C) :
  Cache_Get (cache w) applicationName = Some ids ->
  getCompassMetadataClientIDs ph applicationName w =
  (Ok (ids, None), mkWorld (cache w) (calls w ++ [EvCacheGet applicationName])).
Proof.
  intros Hhit. unfold_M. simpl. rewrite Hhit. reflexivity.
Qed.

(** On a cache hit the resolver returns the cached identifiers; the cache
    lookup is the only call made: the application getter is not called and
    the cache is not written. *)
Theorem resolver_cache_hit {C : Type} `{Cache C} (ph : proxyHandler)
    (applicationName : string) (ids : list string) (w : World C) :
  Cache_Get (cache w) applicationName = Some ids ->
  getCompassMetadataClientIDs ph applicationName w =
  (Ok (ids, None), mkWorld (cache w) (calls w ++ [EvCacheGet applicationName])).
Proof. apply getCompassMetadataClientIDs_hit. Qed.

Lemma resolver_cache_hit_witness :
  getCompassMetadataClientIDs sampleHandler "app2" warmWorld
  = (Ok (["id1"], None), mkWorld (cache warmWorld) [EvCacheGet "app2"]).
Proof.
  exact (@resolver_cache_hit _ mapCache sampleHandler "app2" ["id1"] warmWorld
           ltac:(reflexivity)).
Defined.

(** Two resolutions in a row, the first on a cache miss with a successful
    lookup: when the cache gives back what was stored, the second is
    served from the cache with the same identifiers and calls the
    application getter no more. *)
Theorem resolver_second_call_hits {C : Type} `{Cache C} (ph : proxyHandler)
    (applicationName : string) (application : v1alpha1.Application) (w : World C) :
  Cache_Get (cache w) applicationName = None ->
  applicationGetter ph applicationName = inl application ->
  Cache_Get (Cache_Set (cache w) applicationName (clientIDsOf application)
               DefaultExpiration) applicationName
    = Some (clientIDsOf application) ->
  let first := getCompassMetadataClientIDs ph applicationName w in
  let second := getCompassMetadataClientIDs ph applicationName (snd first) in
  fst first = Ok (clientIDsOf application, None)
  /\ fst second = Ok (clientIDsOf application, None)
  /\ cache (snd second) = cache (snd first)
  /\ calls (snd second) = (calls (snd first) ++ [EvCacheGet applicationName])%list.
Proof.
  intros Hmiss Hget Hlaw first second. subst first second.
  pose proof (getCompassMetadataClientIDs_success ph applicationName application w
                Hmiss Hget) as Hfirst.
  cbv zeta in Hfirst. fold (clientIDsOf application) in Hfirst.
  rewrite Hfirst. cbn [fst snd].
  rewrite (getCompassMetadataClientIDs_hit ph applicationName (clientIDsOf application));
    [|exact Hlaw].
  repeat split.
Qed.

Lemma resolver_second_call_hits_witness :
  let first := getCompassMetadataClientIDs sampleHandler "app2" sampleWorld in
  let second := getCompassMetadataClientIDs sampleHandler "app2" (snd first) in
  fst second = Ok (["id1"; "id2"], None)
  /\ calls (snd second)
     = [EvCacheGet "app2"; EvApplicationGet "app2";
        EvCacheSet "app2" ["id1"; "id2"] DefaultExpiration; EvCacheGet "app2"].
Proof.
  destruct (@resolver_second_call_hits _ mapCache sampleHandler "app2"
              (v1alpha1.mkApplication (v1alpha1.mkApplicationSpec
                 (Some (v1alpha1.mkCompassMetadata
                          (v1alpha1.mkAuthentication ["id1"; "id2"])))))
              sampleWorld ltac:(reflexivity) ltac:(reflexivity) ltac:(reflexivity))
    as (_ & Hsecond & _ & Hcalls).
  split; [exact Hsecond | rewrite Hcalls; reflexivity].
Defined.

(** The calls of the resolver, all of them.  It never panics and never
    answers the caller.  On a cache hit the cache lookup is its only call.
    On a miss it calls the application getter once, for the name it was
    asked; after a successful lookup it stores the identifiers it returns
    under that name with the default expiration, and after a failed lookup
    it makes no further call and leaves the cache as it was.  No other
    call is made: none of the getter or of the cache under another name. *)
Theorem resolver_effects {C : Type} `{Cache C} (ph : proxyHandler)
    (applicationName : string) (w : World C) :
  let run := getCompassMetadataClientIDs ph applicationName w in
  exists ids err evs,
    fst run = Ok (ids, err)
    /\ calls (snd run) = (calls w ++ evs)%list
    /\ ((Cache_Get (cache w) applicationName = Some ids
         /\ err = None
         /\ evs = [EvCacheGet applicationName]
         /\ cache (snd run) = cache w)
        \/ (exists application,
              Cache_Get (cache w) applicationName = None
              /\ applicationGetter ph applicationName = inl application
              /\ ids = clientIDsOf application /\ err = None
              /\ evs = [EvCacheGet applicationName; EvApplicationGet applicationName;
                        EvCacheSet applicationName ids DefaultExpiration]
              /\ cache (snd run)
                 = Cache_Set (cache w) applicationName ids DefaultExpiration)
        \/ (exists cause e,
              Cache_Get (cache w) applicationName = None
              /\ applicationGetter ph applicationName = inr cause
              /\ ids = [] /\ err = Some e /\ code e = CodeInternal
              /\ evs = [EvCacheGet applicationName; EvApplicationGet applicationName]
              /\ cache (snd run) = cache w))
    /\ Forall (fun e => isResponse e = false) evs
    /\ (forall name, EvApplicationGet name ∈ evs ->
                     name = applicationName
                     /\ Cache_Get (cache w) applicationName = None)
    /\ (forall k x d, EvCacheSet k x d ∈ evs ->
                      k = applicationName /\ x = ids /\ d = DefaultExpiration
                      /\ err = None
                      /\ Cache_Get (cache w) applicationName = None).
Proof.
  intros run. subst run.
  destruct (Cache_Get (cache w) applicationName) as [ids|] eqn:Hcache.
  - rewrite (getCompassMetadataClientIDs_hit ph applicationName ids w Hcache).
    exists ids, None, [EvCacheGet applicationName]. cbn [fst snd cache calls].
    split; [reflexivity|]. split; [reflexivity|].
    split; [left; repeat split|]. split; [repeat constructor|].
    split.
    + intros name Hin. apply list_elem_of_singleton in Hin. discriminate Hin.
    + intros k x d Hin. apply list_elem_of_singleton in Hin. discriminate Hin.
  - destruct (applicationGetter ph applicationName) as [application|cause] eqn:Hget.
    + pose proof (getCompassMetadataClientIDs_success ph applicationName application w
                    Hcache Hget) as Hrun.
      cbv zeta in Hrun. fold (clientIDsOf application) in Hrun. rewrite Hrun.
      eexists _, _, _. cbn [fst snd cache calls].
      split; [reflexivity|]. split; [reflexivity|].
      split; [right; left; exists application; repeat split; assumption|].
      split; [repeat constructor|]. split.
      * intros name Hin.
        repeat (apply elem_of_cons in Hin; destruct Hin as [Hin|Hin];
                [try discriminate Hin|]);
          [injection Hin as ->; now split | now apply elem_of_nil in Hin].
      * intros k x d Hin.
        repeat (apply elem_of_cons in Hin; destruct Hin as [Hin|Hin];
                [try discriminate Hin|]);
          [injection Hin as -> -> ->; repeat split | now apply elem_of_nil in Hin].
    + rewrite (getCompassMetadataClientIDs_failure ph applicationName cause w Hcache Hget).
      eexists _, _, _. cbn [fst snd cache calls].
      split; [reflexivity|]. split; [reflexivity|].
      split; [right; right; eexists cause, _; repeat split; assumption|].
      split; [repeat constructor|]. split.
      * intros name Hin.
        repeat (apply elem_of_cons in Hin; destruct Hin as [Hin|Hin];
                [try discriminate Hin|]);
          [injection Hin as ->; now split | now apply elem_of_nil in Hin].
      * intros k x d Hin.
        repeat (apply elem_of_cons in Hin; destruct Hin as [Hin|Hin];
                [try discriminate Hin|]);
          now apply elem_of_nil in Hin.
Qed.


(** ** Further properties of the handler *)

Lemma Sprintf_failed_client_ids (msg : string) :
  fmt.Sprintf "Failed to get Application ClientIds: %s" [msg]
  = "Failed to get Application ClientIds: " +:+ msg.
Proof. cbn -[String.append]. rewrite append_empty_r. reflexivity. Qed.

(** Routing gives a proxy or a NotFound error, never both and never
    neither. *)
Lemma mapRequestToProxy_shape (ph : proxyHandler) (path : string) :
  (exists proxy, mapRequestToProxy ph path = (Some proxy, None))
  \/ (exists err, mapRequestToProxy ph path = (None, Some err) /\ code err = CodeNotFound).
Proof.
  unfold mapRequestToProxy.
  repeat match goal with
         | |- context [if ?b then _ else _] => destruct b
         end; eauto.
Qed.

Section handlerRuns.

Context {C : Type} `{Cache C}.

Lemma resolver_cases (ph : proxyHandler) (applicationName : string) (w : World C) :
  (exists ids w1,
     Resolved ph applicationName w ids w1
     /\ getCompassMetadataClientIDs ph applicationName w = (Ok (ids, None), w1))
  \/ (exists cause,
        Cache_Get (cache w) applicationName = None
        /\ applicationGetter ph applicationName = inr cause
        /\ getCompassMetadataClientIDs ph applicationName w =
           (Ok ([], Some (mkAppError CodeInternal
                            ("failed to get " +:+ applicationName
                             +:+ " application: " +:+ cause))),
            mkWorld (cache w)
              (calls w ++ [EvCacheGet applicationName; EvApplicationGet applicationName]))).
Proof.
  destruct (Cache_Get (cache w) applicationName) as [ids|] eqn:Hcache.
  - left. exists ids, (andThen w (EvCacheGet applicationName)). split.
    + now constructor.
    + now apply getCompassMetadataClientIDs_hit.
  - destruct (applicationGetter ph applicationName) as [application|cause] eqn:Hget.
    + left. eexists _, _. split.
      * now apply (resolved_fetch ph applicationName w application).
      * exact (getCompassMetadataClientIDs_success ph applicationName application w
                 Hcache Hget).
    + right. exists cause. split; [reflexivity|]. split; [reflexivity|].
      rewrite (getCompassMetadataClientIDs_failure ph applicationName cause w Hcache Hget).
      unfold Internal. now rewrite Sprintf_failed_to_get.
Qed.

(** Every run of the handler is one of the runs of [HandlerRun]. *)
Lemma handler_run (ph : proxyHandler) (r : Request) (w : World C) :
  HandlerRun ph r w (fst (ProxyAppConnectorRequests ph r w))
    (snd (ProxyAppConnectorRequests ph r w)).
Proof.
  destruct (ProxyAppConnectorRequests ph r w) as [res w'] eqn:Hrun. cbn [fst snd].
  unfold ProxyAppConnectorRequests in Hrun.
  destruct (String.eqb_spec (Header_Get (Header_ r) CertificateInfoHeader) "")
    as [Hhdr|Hhdr].
  { injection Hrun as <- <-. now apply run_no_header. }
  destruct (String.eqb_spec (map_index (Vars r) "application") "") as [Happ|Happ].
  { injection Hrun as <- <-. now apply run_no_application. }
  unfold mbind, M_bind, liftOutcome, RespondWithError, ServeHTTP, emit in Hrun.
  destruct (resolver_cases ph (map_index (Vars r) "application") w)
    as [(ids & w1 & Hres & Heq) | (cause & Hmiss & Hget & Heq)];
    rewrite Heq in Hrun.
  - destruct (hasValidSubject _ ids _ _ _) as [[|]|e] eqn:Hvalid; cbn [negb] in Hrun.
    + destruct (mapRequestToProxy_shape ph (Path (Url r)))
        as [(proxy & Hmap) | (err & Hmap & Hcode)]; rewrite Hmap in Hrun;
        injection Hrun as <- <-.
      * now apply (run_forward ph r w ids w1 proxy).
      * now apply (run_not_found ph r w ids w1 err).
    + injection Hrun as <- <-. now apply (run_forbidden ph r w ids w1).
    + injection Hrun as <- <-. now apply (run_parse_panic ph r w ids w1 e).
  - unfold Internal, Error in Hrun. cbn [message cache calls] in Hrun.
    rewrite Sprintf_failed_client_ids, <- app_assoc in Hrun.
    injection Hrun as <- <-.
    now apply (run_lookup_failed ph r w cause).
Qed.

End handlerRuns.


Section handlerProperties.

Context {C : Type} `{Cache C}.

Lemma Resolved_run (ph : proxyHandler) (applicationName : string) (w w1 : World C)
    (ids : list string) :
  Resolved ph applicationName w ids w1 ->
  getCompassMetadataClientIDs ph applicationName w = (Ok (ids, None), w1).
Proof.
  intros [ids' Hhit | application Hmiss Hget].
  - now apply getCompassMetadataClientIDs_hit.
  - exact (getCompassMetadataClientIDs_success ph applicationName application w Hmiss Hget).
Qed.

Lemma Resolved_calls (ph : proxyHandler) (applicationName : string) (w w1 : World C)
    (ids : list string) :
  Resolved ph applicationName w ids w1 ->
  exists evs, calls w1 = (calls w ++ evs)%list /\ Forall (fun e => isResponse e = false) evs.
Proof.
  intros [ids' Hhit | application Hmiss Hget]; eexists; split;
    try reflexivity; repeat constructor.
Qed.

(** The handler hands a request to a reverse proxy only when the header
    and the application name are present, the identifiers were resolved,
    one of the presented subjects is valid for them, and the path is
    routed; the request handed over is the director's rewrite of the
    inbound request by the routed proxy. *)
Theorem handler_forwards_only_authorized (ph : proxyHandler) (r : Request) (w : World C) :
  let run := ProxyAppConnectorRequests ph r w in
  let certInfoData := Header_Get (Header_ r) CertificateInfoHeader in
  let applicationName := map_index (Vars r) "application" in
  exists evs,
    calls (snd run) = (calls w ++ evs)%list
    /\ forall out,
         EvServeHTTP out ∈ evs ->
         certInfoData <> "" /\ applicationName <> ""
         /\ exists ids w1 proxy,
              Resolved ph applicationName w ids w1
              /\ hasValidSubject (extractSubjects certInfoData) ids applicationName
                   (group ph) (tenant ph) = Ok true
              /\ mapRequestToProxy ph (Path (Url r)) = (Some proxy, None)
              /\ out = Director proxy r.
Proof.
  intros run certInfoData applicationName. subst run certInfoData applicationName.
  destruct (handler_run ph r w)
    as [Hhdr | Hhdr Happ | cause Hhdr Happ Hmiss Hget
        | ids w1 e Hhdr Happ Hres Hvalid | ids w1 Hhdr Happ Hres Hvalid
        | ids w1 err Hhdr Happ Hres Hvalid Hmap Hcode
        | ids w1 proxy Hhdr Happ Hres Hvalid Hmap];
    try (destruct (Resolved_calls _ _ _ _ _ Hres) as (evs1 & Hcalls & Hquiet));
    cbn [andThen calls]; rewrite ?Hcalls, <- ?app_assoc.
  1-3, 5-6:
    eexists; (split; [reflexivity|]); intros out Hin;
    exfalso; rewrite ?elem_of_app, ?elem_of_cons in Hin;
    repeat match goal with
           | Hin : _ \/ _ |- _ => destruct Hin as [Hin|Hin]
           end;
    try discriminate Hin; try (now apply elem_of_nil in Hin);
    try (rewrite Forall_forall in Hquiet; specialize (Hquiet _ Hin); discriminate Hquiet).
  - exists evs1. split; [reflexivity|]. intros out Hin. exfalso.
    rewrite Forall_forall in Hquiet. specialize (Hquiet _ Hin). discriminate Hquiet.
  - eexists. split; [reflexivity|]. intros out Hin.
    split; [exact Hhdr|]. split; [exact Happ|].
    exists ids, w1, proxy. repeat split; try assumption.
    rewrite elem_of_app, list_elem_of_singleton in Hin. destruct Hin as [Hin|Hin].
    + rewrite Forall_forall in Hquiet. specialize (Hquiet _ Hin). discriminate Hquiet.
    + now injection Hin.
Qed.

(** A run of the handler answers the caller at most once, and the answer
    is its last call: an error response or the hand-over to a proxy, never
    both.  A run that returns has answered.  What the proxy does with the
    request after the hand-over is not part of the run. *)
Theorem handler_single_response (ph : proxyHandler) (r : Request) (w : World C) :
  let run := ProxyAppConnectorRequests ph r w in
  exists before,
    Forall (fun e => isResponse e = false) before
    /\ (calls (snd run) = (calls w ++ before)%list
        \/ exists answer,
             isResponse answer = true
             /\ calls (snd run) = (calls w ++ before ++ [answer])%list)
    /\ (fst run = Ok tt ->
        exists answer,
          isResponse answer = true
          /\ calls (snd run) = (calls w ++ before ++ [answer])%list).
Proof.
  intros run. subst run.
  destruct (handler_run ph r w)
    as [Hhdr | Hhdr Happ | cause Hhdr Happ Hmiss Hget
        | ids w1 e Hhdr Happ Hres Hvalid | ids w1 Hhdr Happ Hres Hvalid
        | ids w1 err Hhdr Happ Hres Hvalid Hmap Hcode
        | ids w1 proxy Hhdr Happ Hres Hvalid Hmap];
    try (destruct (Resolved_calls _ _ _ _ _ Hres) as (evs1 & Hcalls & Hquiet));
    cbn [andThen calls]; rewrite ?Hcalls, <- ?app_assoc.
  - exists []. split; [constructor|].
    split; [right|intros _]; (eexists; split; [|reflexivity]; reflexivity).
  - exists []. split; [constructor|].
    split; [right|intros _]; (eexists; split; [|reflexivity]; reflexivity).
  - exists [EvCacheGet (map_index (Vars r) "application");
            EvApplicationGet (map_index (Vars r) "application")].
    split; [repeat constructor|].
    split; [right|intros _]; (eexists; split; [|reflexivity]; reflexivity).
  - exists evs1. split; [exact Hquiet|]. split; [now left | discriminate].
  - exists evs1. split; [exact Hquiet|].
    split; [right|intros _]; (eexists; split; [|reflexivity]; reflexivity).
  - exists evs1. split; [exact Hquiet|].
    split; [right|intros _]; (eexists; split; [|reflexivity]; reflexivity).
  - exists evs1. split; [exact Hquiet|].
    split; [right|intros _]; (eexists; split; [|reflexivity]; reflexivity).
Qed.

End handlerProperties.


(** ** Where panics come from *)

Lemma parseSubject_well_formed (rawSubject : string) :
  wellFormedSubject rawSubject -> exists n, parseSubject rawSubject = Ok n.
Proof.
  intros Hwf. apply extractSubject_returns_iff in Hwf. destruct Hwf as [m Hm].
  unfold parseSubject. rewrite Hm. simpl. eauto.
Qed.

Lemma parseSubject_panic (rawSubject : string) (e : RuntimeError) :
  parseSubject rawSubject = Panic e ->
  e = IndexOutOfRange 1 1 /\ ~ wellFormedSubject rawSubject.
Proof.
  intros Hpanic.
  assert (Hnot : ~ wellFormedSubject rawSubject).
  { intros Hwf. destruct (parseSubject_well_formed rawSubject Hwf) as [n Hn].
    rewrite Hn in Hpanic. discriminate Hpanic. }
  split; [|exact Hnot].
  unfold wellFormedSubject in Hnot. apply not_Forall_Exists in Hnot; [|solve_decision].
  unfold parseSubject, extractSubject in Hpanic.
  rewrite (extractSubject_loop_panics _ _ Hnot) in Hpanic.
  simpl in Hpanic. congruence.
Qed.

Lemma hasValidSubject_loop_panic (v : pkix.Name -> bool) (subjects : list string)
    (e : RuntimeError) :
  hasValidSubject_loop v subjects = Panic e ->
  e = IndexOutOfRange 1 1 /\ Exists (fun s => ~ wellFormedSubject s) subjects.
Proof.
  induction subjects as [|s rest IH]; simpl; [discriminate|].
  destruct (parseSubject s) as [n|e'] eqn:Hs; simpl.
  - destruct (v n); [discriminate|]. intros Hrest.
    destruct (IH Hrest) as [-> Hex]. split; [reflexivity | now apply Exists_cons_tl].
  - intros [= ->]. destruct (parseSubject_panic s e Hs) as [-> Hnot].
    split; [reflexivity | now apply Exists_cons_hd].
Qed.

Lemma hasValidSubject_loop_well_formed (v : pkix.Name -> bool) (subjects : list string) :
  Forall wellFormedSubject subjects ->
  exists b, hasValidSubject_loop v subjects = Ok b.
Proof.
  induction 1 as [|s rest Hwf _ IH]; simpl; [eauto|].
  destruct (parseSubject_well_formed s Hwf) as [n ->]. simpl.
  destruct (v n); eauto.
Qed.

(** Up to its answer, the handler's only panic is the index out of range
    of the subject parse: a run that panics without having handed the
    request to a proxy has met a presented subject with a segment without
    [=].  When every presented subject is well formed the run reaches its
    answer, an error response or the hand-over to a proxy.  What the proxy
    does with the request after the hand-over is not part of the run. *)
Theorem handler_own_panic_needs_malformed_subject {C : Type} `{Cache C}
    (ph : proxyHandler) (r : Request) (w : World C) :
  let run := ProxyAppConnectorRequests ph r w in
  let subjects := extractSubjects (Header_Get (Header_ r) CertificateInfoHeader) in
  exists evs,
    calls (snd run) = (calls w ++ evs)%list
    /\ (forall e, fst run = Panic e ->
                  (forall out, EvServeHTTP out ∉ evs) ->
                  e = IndexOutOfRange 1 1
                  /\ Exists (fun s => ~ wellFormedSubject s) subjects)
    /\ (Forall wellFormedSubject subjects ->
        exists before answer,
          evs = (before ++ [answer])%list /\ isResponse answer = true).
Proof.
  intros run subjects. subst run subjects.
  destruct (handler_run ph r w)
    as [Hhdr | Hhdr Happ | cause Hhdr Happ Hmiss Hget
        | ids w1 e Hhdr Happ Hres Hvalid | ids w1 Hhdr Happ Hres Hvalid
        | ids w1 err Hhdr Happ Hres Hvalid Hmap Hcode
        | ids w1 proxy Hhdr Happ Hres Hvalid Hmap];
    try (destruct (Resolved_calls _ _ _ _ _ Hres) as (evs1 & Hcalls & Hquiet));
    cbn [andThen calls]; rewrite ?Hcalls, <- ?app_assoc.
  1-3, 5-7:
    eexists; (split; [reflexivity|]); (split; [intros e' Heq; discriminate Heq|]);
    intros _;
    first [ now eexists [], _
          | now eexists [_; _], _
          | now eexists evs1, _ ].
  exists evs1. split; [reflexivity|]. split.
  - intros e' Heq _. injection Heq as <-.
    exact (hasValidSubject_loop_panic _ _ _ Hvalid).
  - intros Hwf. exfalso.
    destruct (hasValidSubject_loop_panic _ _ _ Hvalid) as [_ Hex].
    apply Exists_exists in Hex. destruct Hex as (s & Hin & Hnot).
    rewrite Forall_forall in Hwf. exact (Hnot (Hwf s Hin)).
Qed.

Lemma handler_own_panic_needs_malformed_subject_witness :
  exists before answer,
    calls (snd (ProxyAppConnectorRequests sampleHandler
                  (sampleRequest "/v1/events" (subjectEntry "CN=app1,O=t1") "app1")
                  sampleWorld))
      = (before ++ [answer])%list
    /\ isResponse answer = true.
Proof.
  destruct (@handler_own_panic_needs_malformed_subject _ mapCache sampleHandler
              (sampleRequest "/v1/events" (subjectEntry "CN=app1,O=t1") "app1")
              sampleWorld) as (evs & Hcalls & _ & Hreach).
  destruct Hreach as (before & answer & Hevs & Hanswer).
  - vm_compute. repeat constructor.
  - exists before, answer. split; [|exact Hanswer].
    rewrite Hcalls, Hevs. reflexivity.
Defined.

(** ** Stages of the handler *)

Section handlerStages.

Context {C : Type} `{Cache C}.

(** When the lookup of the application fails on a cache miss, the handler
    answers with one Internal error that carries the cause, hands the
    request to no proxy and leaves the cache as it was. *)
Theorem handler_lookup_failure (ph : proxyHandler) (r : Request) (w : World C)
    (cause : string) :
  let applicationName := map_index (Vars r) "application" in
  Header_Get (Header_ r) CertificateInfoHeader <> "" ->
  applicationName <> "" ->
  Cache_Get (cache w) applicationName = None ->
  applicationGetter ph applicationName = inr cause ->
  ProxyAppConnectorRequests ph r w =
  (Ok tt,
   mkWorld (cache w)
     (calls w ++
      [EvCacheGet applicationName; EvApplicationGet applicationName;
       EvRespondWithError
         {| code := CodeInternal;
            message := "Failed to get Application ClientIds: failed to get "
                       +:+ applicationName +:+ " application: " +:+ cause |}])).
Proof.
  intros applicationName Hhdr Happ Hmiss Hget. subst applicationName.
  unfold ProxyAppConnectorRequests.
  apply String.eqb_neq in Hhdr, Happ. rewrite Hhdr, Happ.
  unfold mbind, M_bind.
  rewrite (getCompassMetadataClientIDs_failure ph _ cause w Hmiss Hget).
  unfold RespondWithError, emit, Internal, Error. cbn [message cache calls].
  now rewrite Sprintf_failed_client_ids, Sprintf_failed_to_get, <- app_assoc.
Qed.

(** Authorization comes before routing: when no presented subject is
    valid for the resolved identifiers, the answer is the Forbidden error
    whatever the path of the request, known or unknown. *)
Theorem handler_forbidden_before_routing (ph : proxyHandler) (r : Request)
    (w w1 : World C) (ids : list string) :
  let certInfoData := Header_Get (Header_ r) CertificateInfoHeader in
  let applicationName := map_index (Vars r) "application" in
  certInfoData <> "" ->
  applicationName <> "" ->
  Resolved ph applicationName w ids w1 ->
  hasValidSubject (extractSubjects certInfoData) ids applicationName
    (group ph) (tenant ph) = Ok false ->
  ProxyAppConnectorRequests ph r w =
  (Ok tt,
   andThen w1 (EvRespondWithError
                 {| code := CodeForbidden; message := "No valid subject found" |})).
Proof.
  intros certInfoData applicationName Hhdr Happ Hres Hvalid.
  subst certInfoData applicationName.
  unfold ProxyAppConnectorRequests.
  apply String.eqb_neq in Hhdr, Happ. rewrite Hhdr, Happ.
  unfold mbind, M_bind. rewrite (Resolved_run _ _ _ _ _ Hres).
  unfold liftOutcome. rewrite Hvalid. reflexivity.
Qed.

End handlerStages.

Lemma handler_lookup_failure_witness :
  ProxyAppConnectorRequests sampleHandler
    (sampleRequest "/v1/events" (subjectEntry "CN=unknown") "unknown") sampleWorld
  = (Ok tt,
     mkWorld ∅
       [EvCacheGet "unknown"; EvApplicationGet "unknown";
        EvRespondWithError
          {| code := CodeInternal;
             message := "Failed to get Application ClientIds: failed to get unknown application: not found" |}]).
Proof.
  apply (@handler_lookup_failure _ mapCache sampleHandler
           (sampleRequest "/v1/events" (subjectEntry "CN=unknown") "unknown")
           sampleWorld "not found");
    solve [reflexivity | vm_compute; discriminate].
Defined.

Lemma handler_forbidden_before_routing_witness :
  ProxyAppConnectorRequests sampleHandler
    (sampleRequest "/no/such/path" (subjectEntry "CN=other") "app2") warmWorld
  = (Ok tt,
     mkWorld (cache warmWorld)
       [EvCacheGet "app2";
        EvRespondWithError
          {| code := CodeForbidden; message := "No valid subject found" |}]).
Proof.
  apply (@handler_forbidden_before_routing _ mapCache sampleHandler
           (sampleRequest "/no/such/path" (subjectEntry "CN=other") "app2")
           warmWorld (andThen warmWorld (EvCacheGet "app2")) ["id1"]).
  - vm_compute. discriminate.
  - vm_compute. discriminate.
  - apply resolved_hit. reflexivity.
  - reflexivity.
Defined.


(** ** Further properties of subject extraction *)

Lemma append_cons (c : ascii) (s t : string) : String c s +:+ t = String c (s +:+ t).
Proof. reflexivity. Qed.

Lemma append_assoc (a b c : string) : (a +:+ b) +:+ c = a +:+ (b +:+ c).
Proof.
  induction a as [|x a IH]; [reflexivity|].
  rewrite !append_cons. now f_equal.
Qed.

Lemma length_append (a b : string) :
  String.length (a +:+ b) = (String.length a + String.length b)%nat.
Proof.
  induction a as [|x a IH]; [reflexivity|].
  rewrite append_cons. simpl. now f_equal.
Qed.

Lemma substring_whole (s : string) : String.substring 0 (String.length s) s = s.
Proof. induction s as [|c s IH]; simpl; [reflexivity | now f_equal]. Qed.

Lemma lazyGroup_quotable (dn rest : string) :
  quotable dn ->
  regexp.lazyGroup (dn +:+ String regexp.quote rest) = Some dn.
Proof.
  intros [Hquote Hfeed].
  induction dn as [|c dn IH].
  - reflexivity.
  - rewrite append_cons. simpl.
    destruct (Ascii.eqb_spec c regexp.quote) as [->|_].
    { exfalso. apply Hquote. apply list_elem_of_here. }
    destruct (Ascii.eqb_spec c regexp.lineFeed) as [->|_].
    { exfalso. apply Hfeed. apply list_elem_of_here. }
    rewrite IH; [reflexivity | |];
      intros Hin; [apply Hquote | apply Hfeed]; now apply list_elem_of_further.
Qed.

Lemma prefix_append (a x : string) : String.prefix a (a +:+ x) = true.
Proof.
  induction a as [|c a IH]; [now destruct x|].
  rewrite append_cons. simpl. destruct (ascii_dec c c) as [_|Hne]; [exact IH|].
  now contradiction Hne.
Qed.

Lemma substring_append (a x : string) :
  String.substring (String.length a) (String.length (a +:+ x) - String.length a) (a +:+ x)
  = x.
Proof.
  induction a as [|c a IH].
  - change ("" +:+ x) with x. simpl. rewrite Nat.sub_0_r. apply substring_whole.
  - rewrite append_cons. simpl. exact IH.
Qed.

Lemma subjectEntry_append (dn rest : string) :
  subjectEntry dn +:+ rest = regexp.subjectOpen +:+ (dn +:+ String regexp.quote rest).
Proof. unfold subjectEntry. now rewrite !append_assoc. Qed.

Lemma matchAt_entry (dn rest : string) :
  quotable dn ->
  regexp.matchAt (subjectEntry dn +:+ rest) = Some [subjectEntry dn; dn].
Proof.
  intros Hq. rewrite subjectEntry_append. unfold regexp.matchAt.
  rewrite prefix_append.
  change 9%nat with (String.length regexp.subjectOpen).
  rewrite substring_append, (lazyGroup_quotable dn rest Hq). reflexivity.
Qed.

Lemma findAllFrom_skip (a rest : string) :
  regexp.findAllFrom (String.length a) (a +:+ rest) = regexp.findAllFrom 0 rest.
Proof.
  induction a as [|c a IH]; [reflexivity|].
  rewrite append_cons. simpl. exact IH.
Qed.

Lemma FindAllStringSubmatch_entry (dn rest : string) :
  quotable dn ->
  regexp.FindAllStringSubmatch (subjectEntry dn +:+ rest)
  = [subjectEntry dn; dn] :: regexp.FindAllStringSubmatch rest.
Proof.
  intros Hq. unfold regexp.FindAllStringSubmatch.
  pose proof (matchAt_entry dn rest Hq) as Hmatch.
  destruct (subjectEntry dn) as [|c body] eqn:Hentry; [discriminate Hentry|].
  rewrite append_cons in Hmatch |- *.
  cbn [regexp.findAllFrom]. rewrite Hmatch. f_equal.
  replace (String.length (default "" (head [String c body; dn])) - 1)%nat
    with (String.length body) by (simpl; lia).
  apply findAllFrom_skip.
Qed.

Lemma extractSubjects_loop_acc (subjectMatches : list (list string))
    (subjects : list string) :
  extractSubjects_loop subjectMatches subjects
  = (subjects ++ extractSubjects_loop subjectMatches [])%list.
Proof.
  revert subjects.
  induction subjectMatches as [|m rest IH]; intros subjects; simpl.
  - now rewrite app_nil_r.
  - destruct (negb (String.eqb (get m 1) "")).
    + rewrite (IH (subjects ++ [get m 1])%list), (IH [get m 1]).
      now rewrite <- app_assoc.
    + apply IH.
Qed.

Lemma extractSubjects_entry (dn rest : string) :
  quotable dn ->
  extractSubjects (subjectEntry dn +:+ rest)
  = ((if String.eqb dn "" then [] else [dn]) ++ extractSubjects rest)%list.
Proof.
  intros Hq. unfold extractSubjects.
  rewrite (FindAllStringSubmatch_entry dn rest Hq). simpl.
  change (get [subjectEntry dn; dn] 1) with dn.
  destruct (String.eqb dn ""); simpl; [reflexivity|].
  apply extractSubjects_loop_acc.
Qed.

(** A leading entry of the pattern contributes its subject, unless it is
    empty, and extraction goes on after its closing quote: the subjects of
    a chain come out in the order of the header. *)
Theorem extractSubjects_leading_entry (dn rest : string) :
  quotable dn ->
  extractSubjects (subjectEntry dn +:+ rest)
  = ((if String.eqb dn "" then [] else [dn]) ++ extractSubjects rest)%list.
Proof. apply extractSubjects_entry. Qed.

Lemma extractSubjects_leading_entry_witness :
  extractSubjects (subjectEntry "CN=a,O=b" +:+ ";URI=x," +:+ subjectEntry "CN=c")
  = ["CN=a,O=b"; "CN=c"].
Proof.
  rewrite (extractSubjects_leading_entry "CN=a,O=b" (";URI=x," +:+ subjectEntry "CN=c")).
  - reflexivity.
  - split; vm_compute; intros Hin;
      repeat (apply elem_of_cons in Hin; destruct Hin as [Hin|Hin]; [discriminate Hin|]);
      now apply elem_of_nil in Hin.
Defined.

Lemma findAllFrom_no_occurrence (s : string) :
  strings.Contains s regexp.subjectOpen = false -> regexp.findAllFrom 0 s = [].
Proof.
  induction s as [|c s IH]; [reflexivity|].
  intros Hno. cbn [strings.Contains] in Hno.
  apply orb_false_iff in Hno. destruct Hno as [Hprefix Hrest].
  cbn [regexp.findAllFrom]. unfold regexp.matchAt. rewrite Hprefix. now apply IH.
Qed.

(** A header value in which [Subject=] followed by a quote does not occur
    has no subject. *)
Theorem extractSubjects_without_pattern (certInfoData : string) :
  strings.Contains certInfoData regexp.subjectOpen = false ->
  extractSubjects certInfoData = [].
Proof.
  intros Hno. unfold extractSubjects, regexp.FindAllStringSubmatch.
  now rewrite findAllFrom_no_occurrence.
Qed.

Lemma extractSubjects_without_pattern_witness :
  extractSubjects "Hash=abc;Subject=CN=app1;URI=" = [].
Proof.
  apply (extractSubjects_without_pattern "Hash=abc;Subject=CN=app1;URI=").
  reflexivity.
Defined.

(** Round trip of a certificate chain: the subjects extracted from the
    header written for a chain are the non-empty subjects of the chain, in
    order. *)
Theorem extractSubjects_renderHeader (dns : list string) :
  Forall quotable dns ->
  extractSubjects (renderHeader dns)
  = List.filter (fun dn => negb (String.eqb dn "")) dns.
Proof.
  induction 1 as [|dn rest Hq _ IH]; [reflexivity|].
  cbn [renderHeader List.filter].
  rewrite (extractSubjects_entry dn _ Hq).
  assert (Hsemi : extractSubjects (";" +:+ renderHeader rest)
                  = extractSubjects (renderHeader rest)) by reflexivity.
  rewrite Hsemi, IH. destruct (String.eqb dn ""); reflexivity.
Qed.

Lemma extractSubjects_renderHeader_witness :
  extractSubjects (renderHeader ["CN=leaf,O=t1"; ""; "CN=root"])
  = ["CN=leaf,O=t1"; "CN=root"].
Proof.
  rewrite (extractSubjects_renderHeader ["CN=leaf,O=t1"; ""; "CN=root"]).
  - reflexivity.
  - repeat constructor; vm_compute; intros Hin;
      repeat (apply elem_of_cons in Hin; destruct Hin as [Hin|Hin]; [discriminate Hin|]);
      now apply elem_of_nil in Hin.
Defined.


(** ** Further properties of the subject parse *)

Lemma list_ascii_of_string_append (a b : string) :
  list_ascii_of_string (a +:+ b)
  = (list_ascii_of_string a ++ list_ascii_of_string b)%list.
Proof.
  induction a as [|c a IH]; [reflexivity|].
  rewrite append_cons. simpl. now f_equal.
Qed.

Lemma Split_at_separator (a b : string) (sep : ascii) :
  sep ∉ list_ascii_of_string a ->
  strings.Split (a +:+ String sep b) sep = a :: strings.Split b sep.
Proof.
  induction a as [|c a IH]; intros Hnot.
  - change ("" +:+ String sep b) with (String sep b). simpl.
    now rewrite Ascii.eqb_refl.
  - rewrite append_cons. simpl.
    destruct (Ascii.eqb_spec c sep) as [->|_].
    { exfalso. apply Hnot. apply list_elem_of_here. }
    rewrite IH; [reflexivity|]. intros Hin. apply Hnot. now apply list_elem_of_further.
Qed.

Lemma segment_without_comma (k v : string) :
  plainText k -> plainText v ->
  ","%char ∉ list_ascii_of_string (k +:+ "=" +:+ v).
Proof.
  intros [Hk _] [Hv _]. rewrite !list_ascii_of_string_append.
  rewrite !elem_of_app. intros [Hin | [Hin | Hin]]; [tauto | | tauto].
  apply list_elem_of_singleton in Hin. discriminate Hin.
Qed.

Lemma Split_renderSubject (attributes : list (string * string)) :
  attributes <> [] ->
  Forall (fun kv => plainText kv.1 /\ plainText kv.2) attributes ->
  strings.Split (renderSubject attributes) ","
  = (fun kv => kv.1 +:+ "=" +:+ kv.2) <$> attributes.
Proof.
  intros Hne Hall. induction Hall as [|[k v] rest [Hk Hv] Hrest IH]; [congruence|].
  destruct rest as [|kv' rest'].
  - simpl. now rewrite (Split_without_separator _ _ (segment_without_comma k v Hk Hv)).
  - change (renderSubject ((k, v) :: kv' :: rest'))
      with (k +:+ "=" +:+ v +:+ "," +:+ renderSubject (kv' :: rest')).
    replace (k +:+ "=" +:+ v +:+ "," +:+ renderSubject (kv' :: rest'))
      with ((k +:+ "=" +:+ v) +:+ String "," (renderSubject (kv' :: rest')))
      by now rewrite !append_assoc.
    rewrite (Split_at_separator _ _ _ (segment_without_comma k v Hk Hv)).
    rewrite IH; [reflexivity | discriminate].
Qed.

Lemma Split_segment (k v : string) :
  "="%char ∉ list_ascii_of_string k ->
  strings.Split (k +:+ "=" +:+ v) "=" = k :: strings.Split v "=".
Proof. intros Hk. exact (Split_at_separator k v "=" Hk). Qed.

Lemma extractSubject_loop_segments (attributes : list (string * string))
    (result : gmap string string) :
  Forall (fun kv => plainText kv.1 /\ plainText kv.2) attributes ->
  extractSubject_loop ((fun kv => kv.1 +:+ "=" +:+ kv.2) <$> attributes) result
  = Ok (foldr (fun kv m => <[kv.1 := kv.2]> m) result (reverse attributes)).
Proof.
  intros Hall. revert result.
  induction Hall as [|[k v] rest [[_ Hk] [_ Hv]] _ IH]; intros result; [reflexivity|].
  cbn [fmap list_fmap extractSubject_loop fst snd].
  rewrite (Split_segment k v Hk), (Split_without_separator v "=" Hv).
  cbn [index_at lookup list_lookup mbind Outcome_bind extractSubject_loop].
  rewrite IH, reverse_cons, foldr_app. reflexivity.
Qed.

(** Round trip of a subject: the parse of a subject written from
    attribute pairs without comma or [=] in keys and values is the map of
    the pairs, a later pair replacing an earlier one with the same key; the
    fields of the parsed name are the values under CN, C, O, OU, L and ST,
    the empty string for a key that is absent. *)
Theorem extractSubject_renderSubject (attributes : list (string * string)) :
  attributes <> [] ->
  Forall (fun kv => plainText kv.1 /\ plainText kv.2) attributes ->
  let m : gmap string string := list_to_map (reverse attributes) in
  extractSubject (renderSubject attributes) = Ok m
  /\ parseSubject (renderSubject attributes)
     = Ok {| pkix.CommonName := default "" (m !! "CN");
             pkix.Country := [default "" (m !! "C")];
             pkix.Organization := [default "" (m !! "O")];
             pkix.OrganizationalUnit := [default "" (m !! "OU")];
             pkix.Locality := [default "" (m !! "L")];
             pkix.Province := [default "" (m !! "ST")] |}.
Proof.
  intros Hne Hall m.
  assert (Hm : extractSubject (renderSubject attributes) = Ok m).
  { unfold extractSubject.
    rewrite (Split_renderSubject attributes Hne Hall).
    now rewrite (extractSubject_loop_segments attributes ∅ Hall). }
  split; [exact Hm|]. unfold parseSubject. rewrite Hm. reflexivity.
Qed.

Lemma extractSubject_renderSubject_witness :
  parseSubject "CN=first,O=t1,CN=second"
  = Ok {| pkix.CommonName := "second"; pkix.Country := [""];
          pkix.Organization := ["t1"]; pkix.OrganizationalUnit := [""];
          pkix.Locality := [""]; pkix.Province := [""] |}.
Proof.
  destruct (extractSubject_renderSubject [("CN", "first"); ("O", "t1"); ("CN", "second")])
    as [_ Hparse].
  - discriminate.
  - repeat constructor; vm_compute; intros Hin;
      repeat (apply elem_of_cons in Hin; destruct Hin as [Hin|Hin]; [discriminate Hin|]);
      now apply elem_of_nil in Hin.
  - exact Hparse.
Defined.

(** The two outcomes of [extractSubject]: on a subject all of whose
    comma-separated segments have a [=] it returns a map; on any other
    subject, the empty one included, it panics with the index 1 out of
    range for the length 1. *)
Theorem extractSubject_outcome (subject : string) :
  (wellFormedSubject subject /\ exists m, extractSubject subject = Ok m)
  \/ (~ wellFormedSubject subject
      /\ extractSubject subject = Panic (IndexOutOfRange 1 1)).
Proof.
  unfold wellFormedSubject, extractSubject.
  destruct (decide (Forall hasSeparator (strings.Split subject ","))) as [Hall|Hnot].
  - left. split; [exact Hall | now apply extractSubject_loop_total].
  - right. split; [exact Hnot|].
    apply extractSubject_loop_panics. apply not_Forall_Exists; [solve_decision | exact Hnot].
Qed.

(** The value of an attribute ends at the second [=] of its segment: what
    follows it is dropped, not kept as part of the value. *)
Theorem extractSubject_value_ends_at_second_separator (k v tail : string) :
  plainText k -> plainText v -> ","%char ∉ list_ascii_of_string tail ->
  extractSubject (k +:+ "=" +:+ v +:+ "=" +:+ tail) = Ok {[ k := v ]}.
Proof.
  intros [Hkc Hk] [Hvc Hv] Htail. unfold extractSubject.
  rewrite Split_without_separator.
  - cbn [extractSubject_loop].
    rewrite (Split_segment k _ Hk).
    replace (v +:+ "=" +:+ tail) with (v +:+ String "=" tail) by reflexivity.
    rewrite (Split_at_separator v tail "=" Hv).
    destruct (strings.Split tail "="); reflexivity.
  - rewrite !list_ascii_of_string_append, !elem_of_app.
    intros [Hin | [Hin | [Hin | [Hin | Hin]]]]; try tauto;
      apply list_elem_of_singleton in Hin; discriminate Hin.
Qed.

Lemma extractSubject_value_ends_at_second_separator_witness :
  extractSubject "CN=app1=admin" = Ok {[ "CN" := "app1" ]}.
Proof.
  apply (extractSubject_value_ends_at_second_separator "CN" "app1" "admin");
    repeat split; vm_compute; intros Hin;
    repeat (apply elem_of_cons in Hin; destruct Hin as [Hin|Hin]; [discriminate Hin|]);
    now apply elem_of_nil in Hin.
Defined.


(** ** Further properties of authorization *)

(** Scoping needs both strings: when the group or the tenant is empty, the
    organization and the organizational unit of a subject play no part,
    whatever the other string is; the validator compares the common name
    alone. *)
Theorem validator_partial_scoping_is_none (ids : list string)
    (appName group tenant : string) (subject : pkix.Name) :
  group = "" \/ tenant = "" ->
  newSubjectValidator ids appName group tenant subject
  = match ids with
    | [] => String.eqb appName (pkix.CommonName subject)
    | _ => bool_decide (pkix.CommonName subject ∈ ids)
    end.
Proof.
  intros Hempty.
  assert (Hfilled : areStringsFilled [group; tenant] = false).
  { destruct Hempty as [-> | ->]; simpl; [reflexivity|].
    now destruct (String.eqb group ""). }
  unfold newSubjectValidator. rewrite Hfilled.
  destruct ids as [|id ids]; [reflexivity|].
  cbn [length bool_decide negb andb]. simpl (bool_decide _).
  unfold validateCommonNameWithClientIDs. apply commonNameIn_elem_of.
Qed.

Lemma validator_partial_scoping_is_none_witness :
  newSubjectValidator [] "app1" "" "tenant1"
    {| pkix.CommonName := "app1"; pkix.Country := [""];
       pkix.Organization := ["other"]; pkix.OrganizationalUnit := [""];
       pkix.Locality := [""]; pkix.Province := [""] |}
  = true.
Proof.
  rewrite (validator_partial_scoping_is_none [] "app1" "" "tenant1").
  - reflexivity.
  - left. reflexivity.
Defined.

(** With client identifiers configured, the application name of the
    route plays no part in the decision on a subject. *)
Theorem validator_ignores_application_name (ids : list string)
    (appName appName' group tenant : string) (subject : pkix.Name) :
  ids <> [] ->
  newSubjectValidator ids appName group tenant subject
  = newSubjectValidator ids appName' group tenant subject.
Proof.
  intros Hne. destruct ids as [|id ids]; [congruence|].
  unfold newSubjectValidator.
  destruct (areStringsFilled [group; tenant]); reflexivity.
Qed.

Lemma validator_ignores_application_name_witness :
  newSubjectValidator ["id1"] "app1" "" ""
    {| pkix.CommonName := "app1"; pkix.Country := [""];
       pkix.Organization := [""]; pkix.OrganizationalUnit := [""];
       pkix.Locality := [""]; pkix.Province := [""] |}
  = false.
Proof.
  rewrite (validator_ignores_application_name ["id1"] "app1" "other" "" "");
    [reflexivity | discriminate].
Defined.

Lemma hasValidSubject_loop_app (v : pkix.Name -> bool) (first second : list string) :
  hasValidSubject_loop v (first ++ second)
  = match hasValidSubject_loop v first with
    | Ok false => hasValidSubject_loop v second
    | decided => decided
    end.
Proof.
  induction first as [|s rest IH]; [reflexivity|].
  cbn [app hasValidSubject_loop].
  destruct (parseSubject s) as [n|e]; [|reflexivity].
  cbn [mbind Outcome_bind]. destruct (v n); [reflexivity | exact IH].
Qed.

(** The subjects are tried in order and the first valid one decides: the
    subjects after it are not parsed, so a malformed subject after a valid
    one does no harm, while a malformed subject before it is fatal. *)
Theorem hasValidSubject_app (first second ids : list string)
    (appName group tenant : string) :
  hasValidSubject (first ++ second) ids appName group tenant
  = match hasValidSubject first ids appName group tenant with
    | Ok false => hasValidSubject second ids appName group tenant
    | decided => decided
    end.
Proof. unfold hasValidSubject. apply hasValidSubject_loop_app. Qed.

(** With group and tenant configured, a subject without the attribute O
    or without the attribute OU is not valid, whatever its common name. *)
Theorem scoping_requires_organization_attributes (rawSubject : string)
    (m : gmap string string) (ids : list string) (appName group tenant : string) :
  group <> "" -> tenant <> "" ->
  extractSubject rawSubject = Ok m ->
  m !! "O" = None \/ m !! "OU" = None ->
  hasValidSubject [rawSubject] ids appName group tenant = Ok false.
Proof.
  intros Hgroup Htenant Hm Hmissing.
  assert (Hfilled : areStringsFilled [group; tenant] = true).
  { simpl. apply String.eqb_neq in Hgroup, Htenant. now rewrite Hgroup, Htenant. }
  assert (Hfields :
            validateSubjectField [map_index m "O"] tenant
            && validateSubjectField [map_index m "OU"] group = false).
  { rewrite !validateSubjectField_singleton. unfold map_index.
    destruct Hmissing as [-> | ->]; simpl.
    - rewrite bool_decide_eq_false_2; [reflexivity | congruence].
    - rewrite (bool_decide_eq_false_2 ("" = group)); [|congruence].
      apply andb_false_r. }
  unfold hasValidSubject, hasValidSubject_loop, parseSubject. rewrite Hm.
  cbn [mbind Outcome_bind]. unfold newSubjectValidator. rewrite Hfilled.
  destruct ids as [|id ids]; cbn [length bool_decide negb andb pkix.Organization
    pkix.OrganizationalUnit]; simpl (bool_decide _); cbn [negb andb].
  all: unfold pkix.Organization, pkix.OrganizationalUnit; cbv beta iota.
  all: rewrite <- andb_assoc, Hfields, andb_false_r; reflexivity.
Qed.

Lemma scoping_requires_organization_attributes_witness :
  hasValidSubject ["CN=app1,OU=group1"] [] "app1" "group1" "tenant1" = Ok false.
Proof.
  apply (scoping_requires_organization_attributes "CN=app1,OU=group1"
           {[ "CN" := "app1"; "OU" := "group1" ]} [] "app1" "group1" "tenant1").
  - discriminate.
  - discriminate.
  - vm_compute. reflexivity.
  - left. reflexivity.
Defined.


(** ** Further properties of routing and of the directors *)

Lemma prefix_trans (a b c : string) :
  String.prefix a b = true -> String.prefix b c = true -> String.prefix a c = true.
Proof.
  revert b c. induction a as [|x a IH]; intros b c Hab Hbc; [now destruct c|].
  destruct b as [|y b]; [discriminate Hab|].
  destruct c as [|z c]; [discriminate Hbc|].
  simpl in *.
  destruct (ascii_dec x y) as [->|]; [|discriminate Hab].
  destruct (ascii_dec y z) as [->|]; [|discriminate Hbc].
  now apply (IH b c).
Qed.

(** The order of the rules matters: a path under a prefix that extends the
    v1-events prefix is routed by the v1-events rule, so a later rule with
    such a prefix never decides; an empty v1-events prefix takes every
    path. *)
Theorem routing_first_rule_shadows (ph : proxyHandler) (laterPrefix path : string) :
  String.prefix (eventServicePathPrefixV1 ph) laterPrefix = true ->
  strings.HasPrefix path laterPrefix = true ->
  mapRequestToProxy ph path = (Some (eventsProxy ph), None).
Proof.
  intros Hext Hpath. unfold mapRequestToProxy, strings.HasPrefix in *.
  now rewrite (prefix_trans _ _ _ Hext Hpath).
Qed.

Lemma routing_first_rule_shadows_witness :
  mapRequestToProxy
    (NewProxyHandler "" "" "/app" "/app/v2/events" "events.svc" "/app/events"
       "mesh.svc" "/publish" "/app/v1/metadata" "registry.svc" sampleGetter)
    "/app/v1/metadata/services"
  = (Some (createReverseProxy "events.svc"
             [withEmptyRequestHost; withEmptyXFwdClientCert; withHTTPScheme]), None).
Proof.
  apply (routing_first_rule_shadows
           (NewProxyHandler "" "" "/app" "/app/v2/events" "events.svc" "/app/events"
              "mesh.svc" "/publish" "/app/v1/metadata" "registry.svc" sampleGetter)
           "/app/v1/metadata" "/app/v1/metadata/services");
    reflexivity.
Defined.

(** Where events go.  A path under the v2-events prefix (and not under the
    v1-events prefix) is sent to the mesh host with the path [/publish]
    when the mesh destination path is [/publish], and to the event-service
    host with its own path otherwise.  A path under the event-mesh prefix
    alone is sent to the mesh host with the mesh destination path,
    whatever that path is. *)
Theorem events_destinations :
  forall g t p1 p2 eh mp mh md ap ah getter (path : string) (r : Request),
    let ph := NewProxyHandler g t p1 p2 eh mp mh md ap ah getter in
    strings.HasPrefix path p1 = false ->
    (strings.HasPrefix path p2 = true ->
     exists proxy,
       mapRequestToProxy ph path = (Some proxy, None)
       /\ Url (Director proxy r)
          = if String.eqb md "/publish"
            then {| Scheme := "http"; URL_Host := mh; Path := "/publish";
                    RawQuery := RawQuery (Url r) |}
            else {| Scheme := "http"; URL_Host := eh; Path := Path (Url r);
                    RawQuery := RawQuery (Url r) |})
    /\ (strings.HasPrefix path p2 = false ->
        strings.HasPrefix path mp = true ->
        exists proxy,
          mapRequestToProxy ph path = (Some proxy, None)
          /\ Url (Director proxy r)
             = {| Scheme := "http"; URL_Host := mh; Path := md;
                  RawQuery := RawQuery (Url r) |}).
Proof.
  intros g t p1 p2 eh mp mh md ap ah getter path r ph Hv1. subst ph.
  unfold mapRequestToProxy. cbn [eventServicePathPrefixV1 eventServicePathPrefixV2
    eventMeshPathPrefix isBEBEnabled eventsProxy eventMeshProxy NewProxyHandler].
  rewrite Hv1. split.
  - intros ->. unfold BEBEnabledPublishEndpoint.
    destruct (String.eqb_spec md "/publish") as [->|Hne]; eexists; split; reflexivity.
  - intros -> ->. eexists; split; reflexivity.
Qed.

Lemma events_destinations_witness :
  exists proxy,
    mapRequestToProxy sampleHandler "/v2/events" = (Some proxy, None)
    /\ Url (Director proxy (sampleRequest "/v2/events" "Subject=CN" "app1"))
       = {| Scheme := "http"; URL_Host := "mesh.svc:80"; Path := "/publish";
            RawQuery := "" |}.
Proof.
  exact (proj1 (events_destinations "" "" "/v1/events" "/v2/events" "events.svc:8081"
                  "/events" "mesh.svc:80" "/publish" "/v1/metadata" "registry.svc:8081"
                  sampleGetter "/v2/events"
                  (sampleRequest "/v2/events" "Subject=CN" "app1") eq_refl) eq_refl).
Defined.

(** The directors change nothing else: each proxy sends to its own host
    and keeps the method, the query, the route variables and every header
    other than X-Forwarded-Client-Cert of the inbound request. *)
Theorem directors_keep_the_rest :
  forall g t p1 p2 eh mp mh md ap ah getter (r : Request),
    let ph := NewProxyHandler g t p1 p2 eh mp mh md ap ah getter in
    keepsRest eh r (Director (eventsProxy ph) r)
    /\ keepsRest mh r (Director (eventMeshProxy ph) r)
    /\ keepsRest ah r (Director (appRegistryProxy ph) r).
Proof.
  intros. subst ph. unfold keepsRest.
  repeat split; simpl; intros key Hkey;
    unfold Header_Del; change "X-Forwarded-Client-Cert" with CertificateInfoHeader;
    rewrite canonical_CertificateInfoHeader; apply lookup_delete_ne; congruence.
Qed.

Lemma foldl_options_permutation (opts opts' : list requestOption) :
  opts ≡ₚ opts' ->
  (forall f g, f ∈ opts -> g ∈ opts -> forall r, f (g r) = g (f r)) ->
  forall r, foldl (fun req opt => opt req) r opts = foldl (fun req opt => opt req) r opts'.
Proof.
  induction 1 as [|x l l' Hperm IH|x y l|l l' l'' H1 IH1 H2 IH2]; intros Hcomm r.
  - reflexivity.
  - simpl. apply IH. intros f g Hf Hg. apply Hcomm; now apply list_elem_of_further.
  - simpl. f_equal. apply Hcomm.
    + apply list_elem_of_further, list_elem_of_here.
    + apply list_elem_of_here.
  - rewrite (IH1 Hcomm r). apply IH2.
    intros f g Hf Hg. apply Hcomm; now rewrite H1.
Qed.

Lemma knownOptions_commute (path : string) (f g : requestOption) :
  f ∈ knownOptions path -> g ∈ knownOptions path -> forall r, f (g r) = g (f r).
Proof.
  unfold knownOptions. intros Hf Hg r.
  repeat (apply elem_of_cons in Hf; destruct Hf as [->|Hf]);
    try (now apply elem_of_nil in Hf);
    repeat (apply elem_of_cons in Hg; destruct Hg as [->|Hg]);
    try (now apply elem_of_nil in Hg);
    reflexivity.
Qed.

(** The request options of the file commute: a reverse proxy built from
    them rewrites a request the same way in whatever order they are
    given. *)
Theorem director_order_irrelevant (destinationHost path : string)
    (opts opts' : list requestOption) :
  opts ≡ₚ opts' ->
  (forall opt, opt ∈ opts -> opt ∈ knownOptions path) ->
  forall r, Director (createReverseProxy destinationHost opts) r
            = Director (createReverseProxy destinationHost opts') r.
Proof.
  intros Hperm Hknown r. simpl.
  apply foldl_options_permutation; [exact Hperm|].
  intros f g Hf Hg. apply (knownOptions_commute path); now apply Hknown.
Qed.

Lemma director_order_irrelevant_witness :
  Director (createReverseProxy "mesh.svc:80"
              [withRewriteBaseURL "/publish"; withEmptyRequestHost;
               withEmptyXFwdClientCert; withHTTPScheme])
    (sampleRequest "/events" "Subject=CN" "app1")
  = Director (createReverseProxy "mesh.svc:80"
                [withHTTPScheme; withEmptyXFwdClientCert; withEmptyRequestHost;
                 withRewriteBaseURL "/publish"])
      (sampleRequest "/events" "Subject=CN" "app1").
Proof.
  apply (director_order_irrelevant "mesh.svc:80" "/publish").
  - symmetry.
    exact (reverse_Permutation
             [withRewriteBaseURL "/publish"; withEmptyRequestHost;
              withEmptyXFwdClientCert; withHTTPScheme]).
  - intros opt Hopt. exact Hopt.
Defined.


(** ** Properties of the plugin validator *)

Section pluginValidatorProperties.

Import telemetryv1alpha1 validation.

Context `{UnicodeStrings}.

Lemma anyCustomFilter_true (filters : list Filter) :
  anyCustomFilter filters = true
  <-> exists f, f ∈ filters /\ Filter_Custom f <> "".
Proof.
  induction filters as [|f rest IH]; simpl.
  - split; [discriminate|]. intros (f & Hin & _). now apply elem_of_nil in Hin.
  - destruct (String.eqb_spec (Filter_Custom f) "") as [Hemp|Hne]; simpl.
    + rewrite IH. split.
      * intros (g & Hin & Hg). exists g. split; [now apply list_elem_of_further | exact Hg].
      * intros (g & Hin & Hg). apply elem_of_cons in Hin. destruct Hin as [->|Hin].
        -- contradiction.
        -- now exists g.
    + split; [|reflexivity]. intros _. exists f. split; [apply list_elem_of_here | exact Hne].
Qed.

(** A pipeline contains a custom plugin exactly when one of its filters or
    its output has a non-empty custom section; the denied plugins of the
    validator play no part, and the second loop over the filters never
    decides. *)
Theorem ContainsCustomPlugin_iff (pv : pluginValidator) (logPipeline : LogPipeline) :
  ContainsCustomPlugin pv logPipeline = true
  <-> (exists f, f ∈ Filters (Spec logPipeline) /\ Filter_Custom f <> "")
      \/ Output_Custom (Output_ (Spec logPipeline)) <> "".
Proof.
  unfold ContainsCustomPlugin.
  destruct (anyCustomFilter (Filters (Spec logPipeline))) eqn:Hany.
  - split; [|reflexivity]. intros _. left. now apply anyCustomFilter_true.
  - destruct (String.eqb_spec (Output_Custom (Output_ (Spec logPipeline))) "")
      as [Hemp|Hne]; simpl.
    + split; [discriminate|]. intros [Hex | Hout]; [|contradiction].
      apply anyCustomFilter_true in Hex. congruence.
    + split; [|reflexivity]. intros _. now right.
Qed.

Lemma deniedLoop_None (name : string) (denied : list string) :
  deniedLoop name denied = None
  <-> Forall (fun deniedPlugin => EqualFold name deniedPlugin = false) denied.
Proof.
  induction denied as [|d rest IH]; simpl.
  - split; [constructor | reflexivity].
  - destruct (EqualFold name d) eqn:Hd.
    + split; [discriminate|]. intros Hall. apply Forall_cons in Hall. destruct Hall. congruence.
    + rewrite IH. split; [now constructor|]. intros Hall. now apply Forall_cons in Hall.
Qed.

(** A custom section is accepted exactly when it parses, has a [name]
    attribute that equals no denied plugin under case folding, and has no
    [match] attribute. *)
Theorem checkIfPluginIsValid_accepts_iff (content : string) (pipeline : LogPipeline)
    (denied : list string) (pipelines : LogPipelineList) :
  checkIfPluginIsValid content pipeline denied pipelines = None
  <-> exists customSection name,
        parseSection content = inl customSection
        /\ customSection !! "name" = Some name
        /\ Forall (fun deniedPlugin => EqualFold name deniedPlugin = false) denied
        /\ customSection !! "match" = None.
Proof.
  unfold checkIfPluginIsValid, getCustomName, hasMatchCondition.
  destruct (parseSection content) as [section|err].
  - destruct (section !! "name") as [name|] eqn:Hname.
    + destruct (deniedLoop name denied) as [err|] eqn:Hdenied.
      * split; [discriminate|]. intros (s' & n' & [= <-] & Hn & Hall & _).
        rewrite Hname in Hn. injection Hn as <-.
        apply deniedLoop_None in Hall. congruence.
      * apply deniedLoop_None in Hdenied.
        destruct (section !! "match") as [cond|] eqn:Hmatch.
        -- split; [discriminate|]. intros (s' & n' & [= <-] & _ & _ & Hm). congruence.
        -- split; [|reflexivity]. intros _. now exists section, name.
    + split; [discriminate|]. intros (s' & n' & [= <-] & Hn & _). congruence.
  - split; [discriminate|]. intros (s' & n' & Hparse & _). discriminate Hparse.
Qed.

Lemma validateFilters_loop_None (pv : pluginValidator) (filters : list Filter)
    (pipeline : LogPipeline) (pipelines : LogPipelineList) :
  validateFilters_loop pv filters pipeline pipelines = None
  <-> Forall (fun f => checkIfPluginIsValid (Filter_Custom f) pipeline
                         (deniedFilterPlugins pv) pipelines = None) filters.
Proof.
  induction filters as [|f rest IH]; simpl.
  - split; [constructor | reflexivity].
  - destruct (checkIfPluginIsValid (Filter_Custom f) pipeline
                (deniedFilterPlugins pv) pipelines) eqn:Hf.
    + split; [discriminate|]. intros Hall. apply Forall_cons in Hall.
      destruct Hall. congruence.
    + rewrite IH. split; [now constructor|]. intros Hall. now apply Forall_cons in Hall.
Qed.

(** A pipeline passes validation exactly when every filter section is
    accepted against the denied filter plugins, the output section is not
    empty, and the output section is accepted against the denied output
    plugins. *)
Theorem Validate_passes_iff (pv : pluginValidator) (logPipeline : LogPipeline)
    (logPipelines : LogPipelineList) :
  Validate pv logPipeline logPipelines = None
  <-> Forall (fun f => checkIfPluginIsValid (Filter_Custom f) logPipeline
                         (deniedFilterPlugins pv) logPipelines = None)
        (Filters (Spec logPipeline))
      /\ Output_Custom (Output_ (Spec logPipeline)) <> ""
      /\ checkIfPluginIsValid (Output_Custom (Output_ (Spec logPipeline))) logPipeline
           (deniedOutputPlugins pv) logPipelines = None.
Proof.
  unfold Validate, validateFilters, validateOutput.
  rewrite <- validateFilters_loop_None.
  destruct (validateFilters_loop pv _ logPipeline logPipelines) as [err|].
  - split; [discriminate|]. intros (Hf & _). discriminate Hf.
  - destruct (Output_Custom (Output_ (Spec logPipeline))) as [|c out] eqn:Hout.
    + simpl. split; [discriminate|]. intros (_ & Hne & _). congruence.
    + simpl (bool_decide _).
      destruct (checkIfPluginIsValid (String c out) logPipeline
                  (deniedOutputPlugins pv) logPipelines) as [err|].
      * split; [discriminate|]. intros (_ & _ & Hc). discriminate Hc.
      * split; [|reflexivity]. intros _. repeat split. discriminate.
Qed.

(** The filters are validated before the output and in order: the first
    filter section that is rejected decides, and its error comes back
    behind the context of the filter stage, whatever the output is. *)
Theorem Validate_first_rejected_filter (pv : pluginValidator) (logPipeline : LogPipeline)
    (logPipelines : LogPipelineList) (accepted rest : list Filter) (rejected : Filter)
    (err : string) :
  Filters (Spec logPipeline) = (accepted ++ rejected :: rest)%list ->
  Forall (fun f => checkIfPluginIsValid (Filter_Custom f) logPipeline
                     (deniedFilterPlugins pv) logPipelines = None) accepted ->
  checkIfPluginIsValid (Filter_Custom rejected) logPipeline
    (deniedFilterPlugins pv) logPipelines = Some err ->
  Validate pv logPipeline logPipelines
  = Some ("error validating filter plugins: " +:+ err).
Proof.
  intros Hfilters Hacc Hrej. unfold Validate, validateFilters. rewrite Hfilters.
  assert (Hloop : validateFilters_loop pv (accepted ++ rejected :: rest)
                    logPipeline logPipelines = Some err).
  { clear Hfilters. induction Hacc as [|f fs Hf _ IH]; simpl.
    - now rewrite Hrej.
    - now rewrite Hf. }
  rewrite Hloop. reflexivity.
Qed.

(** A pipeline whose filters are accepted and whose output section is
    empty is rejected with the message that an output must be defined. *)
Theorem Validate_without_output (pv : pluginValidator) (logPipeline : LogPipeline)
    (logPipelines : LogPipelineList) :
  Forall (fun f => checkIfPluginIsValid (Filter_Custom f) logPipeline
                     (deniedFilterPlugins pv) logPipelines = None)
    (Filters (Spec logPipeline)) ->
  Output_Custom (Output_ (Spec logPipeline)) = "" ->
  Validate pv logPipeline logPipelines
  = Some "error validating output plugin: no output is defined, you must define one output".
Proof.
  intros Hfilters Hout. unfold Validate, validateFilters, validateOutput.
  apply validateFilters_loop_None in Hfilters. rewrite Hfilters, Hout. reflexivity.
Qed.

Lemma Cut_not_found (s : string) (sep : ascii) :
  sep ∉ list_ascii_of_string s -> Cut s sep = (s, "", false).
Proof.
  induction s as [|c t IH]; intros Hnot; [reflexivity|]. simpl.
  destruct (Ascii.eqb_spec c sep) as [->|_].
  { exfalso. apply Hnot. apply list_elem_of_here. }
  rewrite IH; [reflexivity|]. intros Hin. apply Hnot. now apply list_elem_of_further.
Qed.

Lemma Sprintf_invalid_line (line : string) :
  fmt.Sprintf "invalid line: %s" [line] = "invalid line: " +:+ line.
Proof. cbn -[String.append]. rewrite append_empty_r. reflexivity. Qed.

Lemma parseSection_loop_skip (line : string) (rest : list string)
    (result : gmap string string) :
  skippedLine line ->
  parseSection_loop (line :: rest) result = parseSection_loop rest result.
Proof.
  intros [Hemp | Hcomment]; cbn [parseSection_loop].
  - rewrite Hemp. reflexivity.
  - rewrite Hcomment, orb_true_r. reflexivity.
Qed.

Lemma parseSection_loop_app (before after : list string) (result : gmap string string) :
  parseSection_loop (before ++ after) result
  = match parseSection_loop before result with
    | inl result' => parseSection_loop after result'
    | inr err => inr err
    end.
Proof.
  revert result. induction before as [|line rest IH]; intros result; [reflexivity|].
  cbn [app parseSection_loop].
  destruct (bool_decide _ || _); [apply IH|].
  destruct (Cut (TrimSpace line) " ") as [[key value] found].
  destruct found; cbn [negb]; [apply IH | reflexivity].
Qed.

(** Blank lines and comment lines do not count: with or without such a
    line among the lines of a section, the parse gives the same
    attributes or the same error. *)
Theorem parseSection_ignores_skipped_line (before after : list string) (line : string)
    (result : gmap string string) :
  skippedLine line ->
  parseSection_loop (before ++ line :: after) result
  = parseSection_loop (before ++ after) result.
Proof.
  intros Hskip. rewrite !parseSection_loop_app.
  destruct (parseSection_loop before result); [|reflexivity].
  now apply parseSection_loop_skip.
Qed.

(** A line that is neither blank nor a comment and has no space after
    trimming makes the parse fail with that line in the message, whatever
    comes after it, once the lines before it are parsed. *)
Theorem parseSection_invalid_line (before after : list string) (line : string)
    (result parsed : gmap string string) :
  parseSection_loop before result = inl parsed ->
  TrimSpace line <> "" ->
  strings.HasPrefix (TrimSpace line) "#" = false ->
  " "%char ∉ list_ascii_of_string (TrimSpace line) ->
  parseSection_loop (before ++ line :: after) result
  = inr ("invalid line: " +:+ TrimSpace line).
Proof.
  intros Hbefore Hne Hcomment Hspace.
  rewrite parseSection_loop_app, Hbefore. cbn [parseSection_loop].
  rewrite Hcomment, (Cut_not_found _ _ Hspace), Sprintf_invalid_line.
  destruct (TrimSpace line) as [|c t]; [congruence | reflexivity].
Qed.

End pluginValidatorProperties.


Lemma Validate_first_rejected_filter_witness :
  validation.Validate samplePluginValidator
    (samplePipeline ["Name grep"; "Name Kubernetes"; "junk"] "") noPipelines
  = Some "error validating filter plugins: plugin 'Kubernetes' is not supported. ".
Proof.
  apply (@Validate_first_rejected_filter asciiStrings samplePluginValidator
           (samplePipeline ["Name grep"; "Name Kubernetes"; "junk"] "") noPipelines
           [telemetryv1alpha1.mkFilter "Name grep"]
           [telemetryv1alpha1.mkFilter "junk"]
           (telemetryv1alpha1.mkFilter "Name Kubernetes")
           "plugin 'Kubernetes' is not supported. ").
  - reflexivity.
  - repeat constructor.
  - reflexivity.
Defined.

Lemma Validate_without_output_witness :
  validation.Validate samplePluginValidator (samplePipeline ["Name grep"] "") noPipelines
  = Some "error validating output plugin: no output is defined, you must define one output".
Proof.
  apply (@Validate_without_output asciiStrings samplePluginValidator
           (samplePipeline ["Name grep"] "") noPipelines).
  - repeat constructor.
  - reflexivity.
Defined.

Lemma parseSection_ignores_skipped_line_witness :
  validation.parseSection_loop ["Name grep"; "   # the pattern"; "Regex log x"] ∅
  = validation.parseSection_loop ["Name grep"; "Regex log x"] ∅.
Proof.
  apply (@parseSection_ignores_skipped_line asciiStrings
           ["Name grep"] ["Regex log x"] "   # the pattern" ∅).
  right. reflexivity.
Defined.

Lemma parseSection_invalid_line_witness :
  validation.parseSection_loop ["Name grep"; "  Regex  "; "Match *"] ∅
  = inr "invalid line: Regex".
Proof.
  apply (@parseSection_invalid_line asciiStrings
           ["Name grep"] ["Match *"] "  Regex  " ∅ {[ "name" := "grep" ]}).
  - vm_compute. reflexivity.
  - discriminate.
  - reflexivity.
  - vm_compute. intros Hin.
    repeat (apply elem_of_cons in Hin; destruct Hin as [Hin|Hin]; [discriminate Hin|]).
    now apply elem_of_nil in Hin.
Defined.
